(** * ghttpd: the connection-handling pipeline of ghttpd.go

    A shallow embedding of [parseRequest], [validateRequest],
    [serveResource], [sendFile], [generateDirectoryListing], [sendError],
    [handleConnection] and the worker pool of [main], with the properties
    of the specification stated over the bytes the handler writes.

    Go strings are byte sequences: they are modelled as [string] (a list
    of 8-bit [ascii]), so [String.length] is Go's [len].  Integers that
    the code formats with [%d] are [Z]. *)

From Stdlib Require Import ZArith Lia Ascii String DecimalString DecimalZ.
From stdpp Require Import base tactics option list relations strings.

Local Open Scope Z_scope.

(** [simpl] may unfold a concatenation whose first string is known. *)
Arguments String.append : simpl nomatch.

(** ** Characters *)

Definition SP : ascii := " "%char.
Definition TAB : ascii := "009"%char.
Definition LF : ascii := "010"%char.
Definition VT : ascii := "011"%char.
Definition FF : ascii := "012"%char.
Definition CR : ascii := "013"%char.
Definition CRLF : string := String CR (String LF "").

Definition byte_in (lo hi c : ascii) : bool :=
  (nat_of_ascii lo <=? nat_of_ascii c)%nat && (nat_of_ascii c <=? nat_of_ascii hi)%nat.

(** ** Go's [strings] package, as far as ghttpd.go calls it *)

(** [strings.HasPrefix(s, prefix)]. *)
Definition strings_HasPrefix (s pre : string) : bool := String.prefix pre s.

(** [strings.TrimPrefix(s, prefix)]: [s] without the leading [prefix],
    [s] itself when it does not start with it. *)
Definition strings_TrimPrefix (s pre : string) : string :=
  if strings_HasPrefix s pre
  then String.substring (String.length pre) (String.length s - String.length pre) s
  else s.

(** [strings.Split(s, sep)] for a separator of one byte, which is how
    [parseRequest] calls it ([sep = " "]).  Every occurrence of the byte
    separates two parts, so the result has one part more than [s] has
    separators; empty parts are kept. *)
Fixpoint strings_Split (s : string) (sep : ascii) : list string :=
  match s with
  | EmptyString => [EmptyString]
  | String c s' =>
      if decide (c = sep) then EmptyString :: strings_Split s' sep
      else match strings_Split s' sep with
           | [] => [String c EmptyString]
           | part :: parts => String c part :: parts
           end
  end.

(** [strings.Count(s, sep)] for one byte. *)
Fixpoint strings_Count (s : string) (sep : ascii) : nat :=
  match s with
  | EmptyString => 0%nat
  | String c s' => ((if decide (c = sep) then 1 else 0) + strings_Count s' sep)%nat
  end.

(** [strings.Join(elems, sep)]. *)
Fixpoint strings_Join (elems : list string) (sep : string) : string :=
  match elems with
  | [] => ""
  | [e] => e
  | e :: es => e +:+ sep +:+ strings_Join es sep
  end.

(** ** [bufio.Reader.ReadString]

    [ReadString(delim)] returns the bytes up to and including the first
    [delim]; when the stream ends (or a read fails) before a [delim] it
    returns an error.  The connection's input is the byte sequence the
    peer delivers before end of stream. *)
Fixpoint ReadString (input : string) (delim : ascii) : option string :=
  match input with
  | EmptyString => None
  | String c rest =>
      if decide (c = delim) then Some (String c EmptyString)
      else String c <$> ReadString rest delim
  end.

(** ** [net/url.PathUnescape]

    The standard library's [unescape] in path-segment mode: a first pass
    counts the [%] signs and rejects one that is not followed by two
    hexadecimal digits; when there is none the string is returned as it
    is; otherwise a second pass replaces each [%XY] by the byte
    [unhex X << 4 | unhex Y].  A [+] is kept in this mode. *)

Definition ishex (c : ascii) : bool :=
  byte_in "0" "9" c || byte_in "a" "f" c || byte_in "A" "F" c.

Definition unhex (c : ascii) : nat :=
  if byte_in "0" "9" c then nat_of_ascii c - nat_of_ascii "0"
  else if byte_in "a" "f" c then nat_of_ascii c - nat_of_ascii "a" + 10
  else if byte_in "A" "F" c then nat_of_ascii c - nat_of_ascii "A" + 10
  else 0.

(** First pass: [Some n] with [n] the number of escapes, [None] for an
    [EscapeError]. *)
Fixpoint count_escapes (s : string) : option nat :=
  match s with
  | EmptyString => Some 0%nat
  | String c rest =>
      if decide (c = "%"%char) then
        match rest with
        | String a (String b rest') =>
            if ishex a && ishex b then S <$> count_escapes rest' else None
        | _ => None
        end
      else count_escapes rest
  end.

(** Second pass, run on a string the first pass accepted. *)
Fixpoint unescape_bytes (s : string) : string :=
  match s with
  | EmptyString => EmptyString
  | String c rest =>
      if decide (c = "%"%char) then
        match rest with
        | String a (String b rest') =>
            String (ascii_of_nat (unhex a * 16 + unhex b)) (unescape_bytes rest')
        | _ => EmptyString
        end
      else String c (unescape_bytes rest)
  end.

Definition url_PathUnescape (s : string) : option string :=
  match count_escapes s with
  | None => None
  | Some O => Some s
  | Some (S _) => Some (unescape_bytes s)
  end.

(** ** Results with a Go [error]

    An [error] made by [errors.New] or [fmt.Errorf] is identified by its
    message, which is what [err.Error()] returns. *)
Inductive result (A : Type) : Type :=
  | Ok (a : A)
  | Err (msg : string).
Arguments Ok {A} a.
Arguments Err {A} msg.

(** ** The request parser and validator *)

(** [parseRequest] (ghttpd.go:133): [input] is what the connection
    delivers.  The three results are the method, the path and the
    version. *)
Definition parseRequest (input : string) : result (string * string * string) :=
  match ReadString input LF with
  | None => Err "invalid request format"
  | Some firstLine =>
      let parts := strings_Split firstLine SP in
      if decide (length parts ≠ 3%nat) then Err "invalid Request line"
      else
        match parts with
        | [method; rawPath; version] =>
            match url_PathUnescape rawPath with
            | None => Err "invalid URL encoding"
            | Some path => Ok (method, path, version)
            end
        | _ => Err "invalid Request line"
        end
  end.

(** [validateRequest] (ghttpd.go:111): [None] is Go's [nil] error. *)
Definition validateRequest (method version : string) : option string :=
  if negb (strings_HasPrefix version "HTTP") then Some "invalid HTTP version"
  else if decide (method ≠ "GET") then Some "method not allowed"
  else None.

(** ** Go's [path/filepath] package (Unix), as far as ghttpd.go calls it *)

(** [filepath.Clean] works on the path's elements: empty elements and
    [.] are dropped, a [..] removes the element before it, a [..] at the
    start of a rooted path is dropped, and a [..] that a relative path
    cannot remove is kept in front.  [out] is the stack of the elements
    kept so far, the last one first. *)
Fixpoint clean_elems (rooted : bool) (out elems : list string) : list string :=
  match elems with
  | [] => out
  | e :: es =>
      if decide (e = "") then clean_elems rooted out es
      else if decide (e = ".") then clean_elems rooted out es
      else if decide (e = "..") then
        match out with
        | top :: out' =>
            if decide (top = "..") then clean_elems rooted (".." :: out) es
            else clean_elems rooted out' es
        | [] =>
            if rooted then clean_elems rooted [] es
            else clean_elems rooted [".."] es
        end
      else clean_elems rooted (e :: out) es
  end.

Definition filepath_Clean (path : string) : string :=
  if decide (path = "") then "."
  else
    let rooted := strings_HasPrefix path "/" in
    let out := rev (clean_elems rooted [] (strings_Split path "/")) in
    if rooted then "/" +:+ strings_Join out "/"
    else if decide (out = []) then "." else strings_Join out "/".

(** [filepath.Join(elem...)]: the elements from the first one that is
    not empty, joined with the separator and cleaned; the empty string
    when all are empty. *)
Fixpoint filepath_Join (elem : list string) : string :=
  match elem with
  | [] => ""
  | e :: es =>
      if decide (e ≠ "") then filepath_Clean (strings_Join elem "/")
      else filepath_Join es
  end.

(** [filepath.Ext(path)]: the loop runs from the last byte backwards,
    stops at a separator, and returns the suffix from the first dot it
    meets.  [seen] is the suffix already passed. *)
Fixpoint ext_scan (backwards : list ascii) (seen : string) : string :=
  match backwards with
  | [] => ""
  | c :: more =>
      if decide (c = "/"%char) then ""
      else if decide (c = "."%char) then String c seen
      else ext_scan more (String c seen)
  end.

Definition filepath_Ext (path : string) : string :=
  ext_scan (rev (list_ascii_of_string path)) "".

(** ** [fmt.Sprintf] with [%d] *)
Definition itoa (z : Z) : string := NilZero.string_of_int (Z.to_int z).

(** Go's [len] of a string. *)
Definition len (s : string) : Z := Z.of_nat (String.length s).

(** ** The environment of a handler

    The served root [dir] is a process-wide variable; the filesystem and
    the MIME table of [mime.TypeByExtension] belong to the host. *)

Inductive oserror : Set := ENOENT | EACCES | EIO.

Definition os_IsNotExist (e : oserror) : bool :=
  match e with ENOENT => true | _ => false end.

Inductive os_result (A : Type) : Type :=
  | OsOk (a : A)
  | OsErr (e : oserror).
Arguments OsOk {A} a.
Arguments OsErr {A} e.

Record FileInfo : Type := { IsDir : bool; Size : Z }.

(** An open file: what [file.Stat()] answers and the bytes [io.Copy]
    reads from it. *)
Record File : Type := { file_Stat : os_result FileInfo; file_bytes : string }.

Record Env : Type := {
  dir : string;
  os_Stat : string -> os_result FileInfo;
  os_Open : string -> os_result File;
  (** the names of the entries [os.ReadDir] returns, in its order *)
  os_ReadDir : string -> os_result (list string);
  mime_TypeByExtension : string -> string
}.

(** ** The state a handler acts on

    [written] is what [conn.Write] has sent so far, [closed] counts the
    calls of [conn.Close], [fs_calls] records the filesystem calls in the
    order they were made.  A write is taken to succeed, as the code
    discards the results of [conn.Write] and [io.Copy]; the log lines of
    [log.Printf] are not part of the model. *)

Inductive FsCall : Type :=
  | CallStat (path : string)
  | CallOpen (path : string)
  | CallReadDir (path : string).

Record State : Type := { written : string; closed : nat; fs_calls : list FsCall }.

Definition initial : State := {| written := ""; closed := 0; fs_calls := [] |}.

Definition M (A : Type) : Type := State -> A * State.

Definition ret {A} (a : A) : M A := fun s => (a, s).
Definition bind {A B} (m : M A) (k : A -> M B) : M B :=
  fun s => let (a, s') := m s in k a s'.

Notation "x <- m ;; k" := (bind m (fun x => k))
  (at level 100, m at next level, right associativity).
Notation "m ;;; k" := (bind m (fun _ => k))
  (at level 100, right associativity).

Definition conn_Write (b : string) : M unit :=
  fun s => (tt, {| written := written s +:+ b; closed := closed s; fs_calls := fs_calls s |}).

Definition conn_Close : M unit :=
  fun s => (tt, {| written := written s; closed := S (closed s); fs_calls := fs_calls s |}).

Definition fs_call {A} (c : FsCall) (answer : A) : M A :=
  fun s => (answer, {| written := written s; closed := closed s; fs_calls := fs_calls s ++ [c] |}).

(** Runs a handler on a state and keeps the state it leaves. *)
Definition exec {A} (m : M A) (s : State) : State := snd (m s).

(** ** The response serializer and the handlers *)

Definition DQUOTE : string := String "034"%char "".

(** [sendError] (ghttpd.go:209). *)
Definition sendError (code : Z) (message : string) : M unit :=
  let response :=
    "HTTP/1.1 " +:+ itoa code +:+ " " +:+ message +:+ CRLF +:+
    "Content-Type: text/plain" +:+ CRLF +:+
    "Content-Length: " +:+ itoa (len message) +:+ CRLF +:+ CRLF +:+ message in
  conn_Write response.

(** [io.Copy(conn, file)]: the file's bytes go to the connection. *)
Definition io_Copy (file : File) : M unit := conn_Write (file_bytes file).

Section Handlers.

Variable env : Env.

(** [sendFile] (ghttpd.go:157). *)
Definition sendFile (path : string) : M unit :=
  opened <- fs_call (CallOpen path) (os_Open env path) ;;
  match opened with
  | OsErr _ => sendError 500 "Internal Server Error"
  | OsOk file =>
      let ext := filepath_Ext path in
      let contentType := mime_TypeByExtension env ext in
      let contentType :=
        if decide (contentType = "") then "application/octet-stream" else contentType in
      match file_Stat file with
      | OsErr _ => sendError 500 "Internal Server Error"
      | OsOk info =>
          let header :=
            "HTTP/1.1 200 OK" +:+ CRLF +:+
            "Content-Type: " +:+ contentType +:+ CRLF +:+
            "Content-Length: " +:+ itoa (Size info) +:+ CRLF +:+ CRLF in
          conn_Write header ;;; io_Copy file
      end
  end.

(** One pass of the loop of [generateDirectoryListing]: the list item
    written for the entry [name]. *)
Definition listing_item (path name : string) : string :=
  let relativePath := filepath_Join [strings_TrimPrefix path "."; name] in
  "<li><a href=" +:+ DQUOTE +:+ relativePath +:+ DQUOTE +:+ ">" +:+ name +:+ "</a></li>".

(** The [strings.Builder] after the loop and the closing tags. *)
Definition listing_document (path : string) (files : list string) : string :=
  let builder :=
    "<html><head><title>Directory Listing</title></head><body><h1>Directory Listing</h1><ul>" in
  let builder := fold_left (fun b name => b +:+ listing_item path name) files builder in
  builder +:+ "</ul></body></html>".

(** [generateDirectoryListing] (ghttpd.go:187). *)
Definition generateDirectoryListing (path fullPath : string) : M unit :=
  read <- fs_call (CallReadDir fullPath) (os_ReadDir env fullPath) ;;
  match read with
  | OsErr _ => sendError 500 "Internal Server Error"
  | OsOk files =>
      let document := listing_document path files in
      let response :=
        "HTTP/1.1 200 OK" +:+ CRLF +:+
        "Content-Type: text/html" +:+ CRLF +:+
        "Content-Length: " +:+ itoa (len document) +:+ CRLF +:+ CRLF +:+ document in
      conn_Write response
  end.

(** [serveResource] (ghttpd.go:91). *)
Definition serveResource (path : string) : M unit :=
  let fullPath := filepath_Join [dir env; path] in
  stat <- fs_call (CallStat fullPath) (os_Stat env fullPath) ;;
  match stat with
  | OsErr e =>
      if os_IsNotExist e then sendError 404 "Not Found"
      else sendError 500 "Internal Server Error"
  | OsOk fi =>
      if IsDir fi then generateDirectoryListing path fullPath
      else sendFile fullPath
  end.

(** [handleConnection] (ghttpd.go:69); the deferred [conn.Close()]
    runs when the function returns, on every path. *)
Definition handleConnection (input : string) : M unit :=
  match parseRequest input with
  | Err _ => sendError 400 "Bad Request"
  | Ok (method, path, version) =>
      match validateRequest method version with
      | Some err => sendError 400 err
      | None => serveResource path
      end
  end ;;; conn_Close.

End Handlers.

(** The bytes a client receives from a handler that starts on a fresh
    connection. *)
Definition response_of (env : Env) (input : string) : string :=
  written (exec (handleConnection env input) initial).

(** ** The client's view of a response

    A client reads a status line [HTTP/1.1 <code> <reason>], header
    lines [<name>: <value>] up to a blank line, and the body; every line
    ends with CR LF. *)

Record Response : Type := {
  statusCode : Z;
  statusText : string;
  headers : list (string * string);
  body : string
}.

(** Splits [s] at the first occurrence of the byte [a]. *)
Fixpoint cut1 (a : ascii) (s : string) : option (string * string) :=
  match s with
  | EmptyString => None
  | String c s' =>
      if decide (c = a) then Some (EmptyString, s')
      else prod_map (String c) id <$> cut1 a s'
  end.

(** Splits [s] at the first occurrence of the two bytes [a b]. *)
Fixpoint cut2 (a b : ascii) (s : string) : option (string * string) :=
  match s with
  | EmptyString => None
  | String c s' =>
      match s' with
      | EmptyString => None
      | String d s'' =>
          if decide (c = a ∧ d = b) then Some (EmptyString, s'')
          else prod_map (String c) id <$> cut2 a b s'
      end
  end.

Definition strip_prefix (pre s : string) : option string :=
  if strings_HasPrefix s pre
  then Some (String.substring (String.length pre) (String.length s - String.length pre) s)
  else None.

Definition atoi (s : string) : option Z := Z.of_int <$> NilZero.int_of_string s.

(** Header lines up to the blank line; [fuel] bounds the number of lines. *)
Fixpoint parse_headers (fuel : nat) (s : string)
  : option (list (string * string) * string) :=
  match fuel with
  | O => None
  | S fuel' =>
      match cut2 CR LF s with
      | None => None
      | Some (line, rest) =>
          if decide (line = "") then Some ([], rest)
          else
            field ← cut2 ":" " " line;
            more ← parse_headers fuel' rest;
            Some (field :: more.1, more.2)
      end
  end.

Definition parse_response (s : string) : option Response :=
  '(line, rest) ← cut2 CR LF s;
  status ← strip_prefix "HTTP/1.1 " line;
  '(code, reason) ← cut1 SP status;
  n ← atoi code;
  '(hs, b) ← parse_headers (String.length rest) rest;
  Some {| statusCode := n; statusText := reason; headers := hs; body := b |}.

(** The byte [c] occurs in [s]. *)
Fixpoint occurs (c : ascii) (s : string) : bool :=
  match s with
  | EmptyString => false
  | String d s' => bool_decide (d = c) || occurs c s'
  end.

(** The bytes of a response on the wire: the status line, one line per
    header in their order, a blank line, the body. *)
Definition render_header (h : string * string) : string :=
  h.1 +:+ ": " +:+ h.2 +:+ CRLF.

Definition render_headers (hs : list (string * string)) : string :=
  foldr (fun h acc => render_header h +:+ acc) "" hs.

Definition render (r : Response) : string :=
  "HTTP/1.1 " +:+ itoa (statusCode r) +:+ " " +:+ statusText r +:+ CRLF +:+
  render_headers (headers r) +:+ CRLF +:+ body r.

(** A response a client can read back: no CR inside the reason, the
    names or the values, and no colon inside a name. *)
Definition readable_header (h : string * string) : bool :=
  negb (occurs CR h.1) && negb (occurs ":" h.1) && negb (occurs CR h.2).

Definition readable (r : Response) : bool :=
  negb (occurs CR (statusText r)) && forallb readable_header (headers r).

(** The three shapes of response: an error, a file, a listing. *)
Definition error_response (code : Z) (message : string) : Response :=
  {| statusCode := code; statusText := message;
     headers := [("Content-Type", "text/plain"); ("Content-Length", itoa (len message))];
     body := message |}.

Definition file_response (contentType : string) (size : Z) (bytes : string) : Response :=
  {| statusCode := 200; statusText := "OK";
     headers := [("Content-Type", contentType); ("Content-Length", itoa size)];
     body := bytes |}.

Definition listing_response (document : string) : Response :=
  {| statusCode := 200; statusText := "OK";
     headers := [("Content-Type", "text/html"); ("Content-Length", itoa (len document))];
     body := document |}.

(** The content type [sendFile] picks for a path. *)
Definition content_type (env : Env) (path : string) : string :=
  let contentType := mime_TypeByExtension env (filepath_Ext path) in
  if decide (contentType = "") then "application/octet-stream" else contentType.

(** The responses a handler can write. *)
Inductive canonical (env : Env) : Response -> Prop :=
  | canonical_error code message :
      occurs CR message = false -> canonical env (error_response code message)
  | canonical_file path size bytes :
      canonical env (file_response (content_type env path) size bytes)
  | canonical_listing document :
      canonical env (listing_response document).

(** The strings of a list, one after the other. *)
Definition concat_strings (l : list string) : string := foldr String.append "" l.

(** [path] names a regular file of [size] bytes that can be opened:
    [os.Open] succeeds, the metadata of the open file reports [size], and
    reading it yields [bytes]. *)
Definition regular_file (env : Env) (path : string) (size : Z) (bytes : string) : Prop :=
  ∃ file info,
    os_Open env path = OsOk file ∧ file_Stat file = OsOk info ∧
    IsDir info = false ∧ Size info = size ∧
    file_bytes file = bytes ∧ len bytes = size.

(** The state of a fresh connection after the filesystem calls [calls]. *)
Definition after_calls (calls : list FsCall) : State :=
  {| written := ""; closed := 0; fs_calls := calls |}.

(** ** An example host

    The served root [/srv/www] holds [index.html] (11 bytes), the
    directories [docs] and [.hidden] and the file [secret], which cannot
    be opened; [/etc/passwd] lies outside the root. *)

Definition regular (bytes : string) : File :=
  {| file_Stat := OsOk {| IsDir := false; Size := len bytes |}; file_bytes := bytes |}.

Definition a_file : FileInfo := {| IsDir := false; Size := 11 |}.
Definition a_directory : FileInfo := {| IsDir := true; Size := 4096 |}.

Definition example_host : Env := {|
  dir := "/srv/www";
  os_Stat := fun p =>
    if decide (p = "/srv/www") then OsOk a_directory
    else if decide (p = "/srv/www/index.html") then OsOk a_file
    else if decide (p = "/srv/www/docs") then OsOk a_directory
    else if decide (p = "/srv/www/.hidden") then OsOk a_directory
    else if decide (p = "/srv/www/secret") then OsOk a_file
    else if decide (p = "/srv/www/locked") then OsErr EACCES
    else if decide (p = "/etc/passwd") then OsOk a_file
    else OsErr ENOENT;
  os_Open := fun p =>
    if decide (p = "/srv/www/index.html") then OsOk (regular "hello world")
    else if decide (p = "/srv/www/secret") then OsErr EACCES
    else if decide (p = "/etc/passwd") then OsOk (regular "root:x:0:0:")
    else OsErr ENOENT;
  os_ReadDir := fun p =>
    if decide (p = "/srv/www") then OsOk [".hidden"; "docs"; "index.html"; "secret"]
    else if decide (p = "/srv/www/docs") then OsOk ["a.txt"; "b.txt"]
    else if decide (p = "/srv/www/.hidden") then OsOk ["a.txt"]
    else OsErr ENOENT;
  mime_TypeByExtension := fun ext =>
    if decide (ext = ".html") then "text/html; charset=utf-8"
    else if decide (ext = ".txt") then "text/plain; charset=utf-8"
    else ""
|}.

(** ** The worker pool of [main] (ghttpd.go:46-66)

    The goroutines of [main] as an interleaving transition system.  The
    main goroutine first runs the loop [for i := range workers], starting
    one worker per pass, then the accept loop.  [connChan] has no buffer:
    the send [connChan <- conn] and a worker's receive complete together,
    in one step.  Connections are numbered in the order they are
    accepted. *)

Inductive MainPc : Type :=
  | Spawning (i : nat)      (** in the loop that starts the workers, [i] started *)
  | Accepting               (** in [listener.Accept()] *)
  | Sending (conn : nat)    (** blocked in [connChan <- conn] *)
  | Exited.                 (** the process has ended after a failed accept *)

Inductive WorkerPc : Type :=
  | Receiving               (** blocked in [range connChan] *)
  | Handling (conn : nat).  (** inside [handleConnection(conn)] *)

Record Pool : Type := { main_pc : MainPc; pool : list WorkerPc; accepted : nat }.

Definition pool_start : Pool := {| main_pc := Spawning 0; pool := []; accepted := 0 |}.

Definition is_handling (w : WorkerPc) : bool :=
  match w with Handling _ => true | Receiving => false end.

(** The number of connections inside [handleConnection]. *)
Definition in_flight (p : Pool) : nat := length (filter is_handling (pool p)).

Inductive pool_step (workers : Z) : Pool -> Pool -> Prop :=
  | step_spawn i ws n :
      (i < Z.to_nat workers)%nat ->
      pool_step workers
        {| main_pc := Spawning i; pool := ws; accepted := n |}
        {| main_pc := Spawning (S i); pool := ws ++ [Receiving]; accepted := n |}
  | step_spawned i ws n :
      ¬ (i < Z.to_nat workers)%nat ->
      pool_step workers
        {| main_pc := Spawning i; pool := ws; accepted := n |}
        {| main_pc := Accepting; pool := ws; accepted := n |}
  | step_accept ws n :
      pool_step workers
        {| main_pc := Accepting; pool := ws; accepted := n |}
        {| main_pc := Sending n; pool := ws; accepted := S n |}
  | step_accept_failed ws n :
      pool_step workers
        {| main_pc := Accepting; pool := ws; accepted := n |}
        {| main_pc := Exited; pool := ws; accepted := n |}
  | step_hand_off conn j ws n :
      ws !! j = Some Receiving ->
      pool_step workers
        {| main_pc := Sending conn; pool := ws; accepted := n |}
        {| main_pc := Accepting; pool := <[j := Handling conn]> ws; accepted := n |}
  | step_handled conn j m ws n :
      m ≠ Exited ->
      ws !! j = Some (Handling conn) ->
      pool_step workers
        {| main_pc := m; pool := ws; accepted := n |}
        {| main_pc := m; pool := <[j := Receiving]> ws; accepted := n |}.

(** The states the program can be in. *)
Definition pool_reachable (workers : Z) (p : Pool) : Prop :=
  rtc (pool_step workers) pool_start p.

(** What holds of the pool in every state: the loop that starts the
    workers has started [i] of them after [i] passes and makes no more
    than [workers] passes; afterwards their number stays. *)
Definition pool_inv (workers : Z) (p : Pool) : Prop :=
  match main_pc p with
  | Spawning i => length (pool p) = i ∧ (i ≤ Z.to_nat workers)%nat
  | _ => length (pool p) = Z.to_nat workers
  end.

(** Two workers, both handling a connection, and the acceptor waiting
    with a third. *)
Definition pool_busy : Pool :=
  {| main_pc := Sending 2; pool := [Handling 0; Handling 1]; accepted := 3 |}.

(** No connection is with two parties: the connections being handled
    are held by one worker each, have all been accepted, and the one the
    acceptor is sending is with no worker. *)
Definition conns_owned_once (p : Pool) : Prop :=
  (∀ i j conn, pool p !! i = Some (Handling conn) ->
               pool p !! j = Some (Handling conn) -> i = j) ∧
  (∀ i conn, pool p !! i = Some (Handling conn) -> (conn < accepted p)%nat) ∧
  (∀ conn, main_pc p = Sending conn ->
           (conn < accepted p)%nat ∧ ∀ i, pool p !! i ≠ Some (Handling conn)).

(** The pool without workers: at most one connection is accepted, and it
    is the one the acceptor holds. *)
Definition pool_without_workers (p : Pool) : Prop :=
  pool p = [] ∧
  match main_pc p with
  | Spawning i => i = 0%nat ∧ accepted p = 0%nat
  | Accepting => accepted p = 0%nat
  | Sending conn => conn = 0%nat ∧ accepted p = 1%nat
  | Exited => accepted p = 0%nat
  end.

(** A path element that [filepath.Clean] keeps as it is. *)
Definition real_elem (e : string) : Prop := e ≠ "" ∧ e ≠ "." ∧ e ≠ "..".


(** The stacks [clean_elems] leaves: kept elements on top of the [..]
    that a relative path could not remove. *)
Definition clean_stack (rooted : bool) (out : list string) : Prop :=
  ∃ reals k, out = reals ++ repeat ".." k ∧ Forall real_elem reals
             ∧ (rooted = true -> k = 0%nat).

(** The path [filepath.Clean] returns for the stack [out]. *)
Definition path_of (rooted : bool) (out : list string) : string :=
  if rooted then "/" +:+ strings_Join (rev out) "/"
  else if decide (rev out = []) then "." else strings_Join (rev out) "/".

(** The check [main] makes before it listens (ghttpd.go:33): the process
    ends only when the query of the served root says that it does not
    exist. *)
Definition startup_check (env : Env) : bool :=
  match os_Stat env (dir env) with
  | OsErr e => negb (os_IsNotExist e)
  | OsOk _ => true
  end.

(** A host whose served root is a file. *)
Definition file_host : Env := {|
  dir := "/srv/page.html";
  os_Stat := fun p => if decide (p = "/srv/page.html") then OsOk a_file else OsErr ENOENT;
  os_Open := fun p =>
    if decide (p = "/srv/page.html") then OsOk (regular "hello world") else OsErr ENOENT;
  os_ReadDir := fun p => OsErr ENOENT;
  mime_TypeByExtension := fun ext => if decide (ext = ".html") then "text/html" else ""
|}.

(** The acceptor holds the first connection and there is no worker. *)
Definition pool_stuck : Pool := {| main_pc := Sending 0; pool := []; accepted := 1 |}.

(** ** Notions of the specification *)

(** White space as [unicode.IsSpace] has it on single bytes. *)
Definition is_space (c : ascii) : bool :=
  bool_decide (c = SP ∨ c = TAB ∨ c = LF ∨ c = VT ∨ c = FF ∨ c = CR).

(** The white-space-separated tokens of a line: its maximal runs of
    bytes that are not white space ([strings.Fields]).  [cur] is the
    token being read. *)
Fixpoint tokens_from (cur s : string) : list string :=
  match s with
  | EmptyString => if decide (cur = "") then [] else [cur]
  | String c s' =>
      if is_space c
      then (if decide (cur = "") then tokens_from "" s' else cur :: tokens_from "" s')
      else tokens_from (cur +:+ String c "") s'
  end.

Definition whitespace_tokens (s : string) : list string := tokens_from "" s.

(** Percent-decoding: every [%XY] with hexadecimal digits [X] and [Y]
    stands for the byte of that value, every other byte for itself. *)
Fixpoint percent_decode (s : string) : string :=
  match s with
  | EmptyString => EmptyString
  | String c rest =>
      match rest with
      | String a (String b rest') =>
          if bool_decide (c = "%"%char) && ishex a && ishex b
          then String (ascii_of_nat (unhex a * 16 + unhex b)) (percent_decode rest')
          else String c (percent_decode rest)
      | _ => String c (percent_decode rest)
      end
  end.

(** Every [%] of [s] starts a well-formed escape. *)
Fixpoint well_escaped (s : string) : bool :=
  match s with
  | EmptyString => true
  | String c rest =>
      if decide (c = "%"%char) then
        match rest with
        | String a (String b rest') => ishex a && ishex b && well_escaped rest'
        | _ => false
        end
      else well_escaped rest
  end.

(** The elements of an absolute path after cleaning, the first one
    first. *)
Definition path_elements (p : string) : list string :=
  rev (clean_elems true [] (strings_Split p "/")).

Fixpoint starts_with (pre l : list string) : bool :=
  match pre, l with
  | [], _ => true
  | x :: pre', y :: l' => bool_decide (x = y) && starts_with pre' l'
  | _ :: _, [] => false
  end.

(** The absolute path [p] names the served root or something below it. *)
Definition within_root (root p : string) : bool :=
  starts_with (path_elements root) (path_elements p).

(** The request path that climbs [n] directories and then names
    [target]. *)
Fixpoint climb (n : nat) (target : string) : string :=
  match n with
  | O => target
  | S n' => "../" +:+ climb n' target
  end.

(** The escape [%XY] of every byte of a string, with upper-case digits. *)
Definition hexdigit (n : nat) : ascii :=
  if (n <? 10)%nat then ascii_of_nat (nat_of_ascii "0" + n)
  else ascii_of_nat (nat_of_ascii "A" + (n - 10)).

Fixpoint escape_all (bytes : string) : string :=
  match bytes with
  | EmptyString => EmptyString
  | String c rest =>
      String "%" (String (hexdigit (nat_of_ascii c / 16))
                    (String (hexdigit (nat_of_ascii c mod 16)) (escape_all rest)))
  end.

(** * Properties *)

(** ** Strings *)

Lemma append_assoc (a b c : string) : (a +:+ b) +:+ c = a +:+ (b +:+ c).
Proof. induction a as [|x a IH]; simpl; [done | by rewrite IH]. Qed.

Lemma append_nil_r (a : string) : a +:+ "" = a.
Proof. induction a as [|x a IH]; simpl; [done | by rewrite IH]. Qed.

Lemma length_append (a b : string) :
  String.length (a +:+ b) = (String.length a + String.length b)%nat.
Proof. induction a as [|x a IH]; simpl; [done | by rewrite IH]. Qed.

(** Brings concatenations into the same shape on both sides. *)
Local Ltac assoc_strings := repeat (progress simpl || rewrite append_assoc).

Lemma occurs_append c (a b : string) : occurs c (a +:+ b) = occurs c a || occurs c b.
Proof. induction a as [|x a IH]; simpl; [done | by rewrite IH, orb_assoc]. Qed.

Lemma occurs_cons_false c d s :
  occurs c (String d s) = false -> d ≠ c ∧ occurs c s = false.
Proof.
  simpl. intros H. apply orb_false_iff in H as [H1 H2].
  split; [by apply bool_decide_eq_false in H1 | done].
Qed.

Lemma prefix_append (pre s : string) : String.prefix pre (pre +:+ s) = true.
Proof.
  induction pre as [|x pre IH]; simpl; [by destruct s |].
  destruct (ascii_dec x x); [done | congruence].
Qed.

Lemma HasPrefix_append (pre s : string) : strings_HasPrefix (pre +:+ s) pre = true.
Proof. apply prefix_append. Qed.

Lemma substring_drop (pre s : string) :
  String.substring (String.length pre)
    (String.length (pre +:+ s) - String.length pre) (pre +:+ s) = s.
Proof.
  induction pre as [|x pre IH]; simpl.
  - rewrite Nat.sub_0_r. induction s as [|y s IHs]; simpl; [done | by rewrite IHs].
  - exact IH.
Qed.

Lemma strip_prefix_append (pre s : string) : strip_prefix pre (pre +:+ s) = Some s.
Proof. unfold strip_prefix. by rewrite HasPrefix_append, substring_drop. Qed.

(** ** [strings.Split], [strings.Count] and [ReadString] *)

Lemma strings_Split_nonempty s sep : strings_Split s sep ≠ [].
Proof.
  induction s as [|c s IH]; simpl; [done |].
  destruct (decide (c = sep)); [done |].
  by destruct (strings_Split s sep).
Qed.

Lemma strings_Split_length s sep :
  length (strings_Split s sep) = S (strings_Count s sep).
Proof.
  induction s as [|c s IH]; simpl; [done |].
  destruct (decide (c = sep)); simpl; [by rewrite IH |].
  pose proof (strings_Split_nonempty s sep).
  destruct (strings_Split s sep); [done | exact IH].
Qed.

Lemma strings_Split_no_sep s sep : occurs sep s = false -> strings_Split s sep = [s].
Proof.
  induction s as [|c s IH]; simpl; [done |]. intros H.
  apply orb_false_iff in H as [H1 H2]. apply bool_decide_eq_false in H1.
  rewrite decide_False by done. by rewrite IH.
Qed.

Lemma strings_Split_append a sep b :
  occurs sep a = false ->
  strings_Split (a +:+ String sep b) sep = a :: strings_Split b sep.
Proof.
  induction a as [|c a IH]; simpl; intros H.
  - by rewrite decide_True.
  - apply orb_false_iff in H as [H1 H2]. apply bool_decide_eq_false in H1.
    rewrite decide_False by done. by rewrite IH.
Qed.

Lemma ReadString_append a delim rest :
  occurs delim a = false ->
  ReadString (a +:+ String delim rest) delim = Some (a +:+ String delim "").
Proof.
  induction a as [|c a IH]; simpl; intros H.
  - by rewrite decide_True.
  - apply orb_false_iff in H as [H1 H2]. apply bool_decide_eq_false in H1.
    rewrite decide_False by done. by rewrite IH.
Qed.

(** The line [ReadString] returns ends with the delimiter and has it
    nowhere else. *)
Lemma ReadString_line input delim line :
  ReadString input delim = Some line ->
  ∃ a rest, input = a +:+ String delim rest ∧ line = a +:+ String delim ""
            ∧ occurs delim a = false.
Proof.
  revert line. induction input as [|c input IH]; simpl; intros line H; [done |].
  destruct (decide (c = delim)) as [->|Hc].
  - injection H as <-. by exists "", input.
  - destruct (ReadString input delim) as [l|] eqn:E; [|done].
    injection H as <-. destruct (IH l eq_refl) as (a & rest & -> & -> & Ha).
    exists (String c a), rest. simpl. rewrite Ha.
    by rewrite bool_decide_eq_false_2.
Qed.

(** ** The request line *)

(** C1, as the code has it: [parseRequest] splits the line at every
    space byte (0x20), so the number of parts is the number of spaces
    plus one, and it fails with the request-line error exactly when that
    number is not three, that is when the line does not hold exactly two
    spaces. *)
Theorem parseRequest_part_count (input line : string) :
  ReadString input LF = Some line ->
  length (strings_Split line SP) = S (strings_Count line SP) ∧
  (parseRequest input = Err "invalid Request line"
   ↔ length (strings_Split line SP) ≠ 3%nat) ∧
  (parseRequest input = Err "invalid Request line"
   ↔ strings_Count line SP ≠ 2%nat).
Proof.
  intros Hline.
  assert (Hiff : parseRequest input = Err "invalid Request line"
                 ↔ length (strings_Split line SP) ≠ 3%nat).
  { unfold parseRequest. rewrite Hline. simpl.
    destruct (decide (length (strings_Split line SP) ≠ 3%nat)) as [Hn|Hn]; [done |].
    split; [|done].
    destruct (strings_Split line SP) as [|m [|p [|v [|x parts]]]]; simpl in Hn;
      try (exfalso; apply Hn; lia).
    destruct (url_PathUnescape p); discriminate. }
  split; [apply strings_Split_length |]. split; [exact Hiff |].
  rewrite Hiff, strings_Split_length. lia.
Qed.

Lemma parseRequest_part_count_witness :
  length (strings_Split ("GET /index.html" +:+ CRLF) SP)
  = S (strings_Count ("GET /index.html" +:+ CRLF) SP) ∧
  (parseRequest ("GET /index.html" +:+ CRLF) = Err "invalid Request line"
   ↔ length (strings_Split ("GET /index.html" +:+ CRLF) SP) ≠ 3%nat) ∧
  (parseRequest ("GET /index.html" +:+ CRLF) = Err "invalid Request line"
   ↔ strings_Count ("GET /index.html" +:+ CRLF) SP ≠ 2%nat).
Proof.
  apply (parseRequest_part_count ("GET /index.html" +:+ CRLF) ("GET /index.html" +:+ CRLF)).
  reflexivity.
Defined.

(** C1, as the specification words it, fails in both directions: a
    line whose three tokens are separated by tabs has three
    white-space-separated tokens, and [parseRequest] rejects it for its
    number of parts; a line whose path holds a tab has four
    white-space-separated tokens, and [parseRequest] accepts it. *)
Lemma parseRequest_tabs_rejected :
  let line := "GET" +:+ String TAB "/index.html" +:+ String TAB "HTTP/1.1" +:+ CRLF in
  let line' := "GET /a" +:+ String TAB "b HTTP/1.1" +:+ CRLF in
  (ReadString line LF = Some line ∧
   whitespace_tokens line = ["GET"; "/index.html"; "HTTP/1.1"] ∧
   length (whitespace_tokens line) = 3%nat ∧
   parseRequest line = Err "invalid Request line") ∧
  (ReadString line' LF = Some line' ∧
   whitespace_tokens line' = ["GET"; "/a"; "b"; "HTTP/1.1"] ∧
   length (whitespace_tokens line') ≠ 3%nat ∧
   parseRequest line' = Ok ("GET", "/a" +:+ String TAB "b", "HTTP/1.1" +:+ CRLF)).
Proof. cbv zeta. repeat split; try reflexivity. simpl. lia. Qed.

(** The same with two spaces between the method and the path. *)
Lemma parseRequest_double_space_rejected :
  let line := "GET  /index.html HTTP/1.1" +:+ CRLF in
  length (whitespace_tokens line) = 3%nat ∧
  strings_Split line SP = ["GET"; ""; "/index.html"; "HTTP/1.1" +:+ CRLF] ∧
  parseRequest line = Err "invalid Request line".
Proof. repeat split; reflexivity. Qed.

(** ** Percent-decoding *)

Lemma percent_decode_plain c rest :
  c ≠ "%"%char -> percent_decode (String c rest) = String c (percent_decode rest).
Proof.
  intros Hc. simpl. destruct rest as [|a [|b rest']]; try done.
  by rewrite bool_decide_eq_false_2.
Qed.

Lemma percent_decode_escape a b rest :
  ishex a = true -> ishex b = true ->
  percent_decode (String "%" (String a (String b rest)))
  = String (ascii_of_nat (unhex a * 16 + unhex b)) (percent_decode rest).
Proof.
  intros Ha Hb. cbn [percent_decode].
  by rewrite bool_decide_eq_true_2, Ha, Hb.
Qed.

(** The two passes of [unescape] on strings of length at most [n]. *)
Lemma unescape_passes (n : nat) : ∀ s,
  (String.length s ≤ n)%nat ->
  match count_escapes s with
  | Some k =>
      well_escaped s = true ∧ unescape_bytes s = percent_decode s
      ∧ (k = 0%nat -> percent_decode s = s)
  | None => well_escaped s = false
  end.
Proof.
  induction n as [|n IH]; intros s Hlen.
  { destruct s; simpl in *; [done | lia]. }
  destruct s as [|c rest]; [done |].
  cbn [count_escapes well_escaped unescape_bytes].
  destruct (decide (c = "%"%char)) as [->|Hc].
  - destruct rest as [|a [|b rest']]; try done.
    destruct (ishex a) eqn:Ha; [|done]. destruct (ishex b) eqn:Hb; [|done].
    cbn [andb]. specialize (IH rest'). simpl in Hlen.
    destruct (count_escapes rest') as [k|]; cbn [fmap option_fmap option_map].
    + destruct IH as (Hw & Hu & _); [lia |].
      rewrite percent_decode_escape by done. by rewrite Hw, Hu.
    + apply IH. lia.
  - specialize (IH rest). simpl in Hlen.
    destruct (count_escapes rest) as [k|]; [|apply IH; lia].
    destruct IH as (Hw & Hu & Hk); [lia |].
    rewrite percent_decode_plain by done. split; [done |].
    split; [by rewrite Hu |]. intros ->. by rewrite Hk.
Qed.

(** [url.PathUnescape] succeeds exactly on the well-escaped strings and
    returns the percent-decoded string. *)
Lemma url_PathUnescape_spec (s : string) :
  url_PathUnescape s = if well_escaped s then Some (percent_decode s) else None.
Proof.
  unfold url_PathUnescape.
  pose proof (unescape_passes (String.length s) s (Nat.le_refl _)) as H.
  destruct (count_escapes s) as [[|k]|].
  - destruct H as (-> & _ & Hk). by rewrite Hk.
  - destruct H as (-> & -> & _). done.
  - by rewrite H.
Qed.

Lemma hexdigit_unhex (n : nat) :
  (n < 16)%nat -> ishex (hexdigit n) = true ∧ unhex (hexdigit n) = n.
Proof.
  intros Hn. do 16 (destruct n as [|n]; [by vm_compute |]). lia.
Qed.

(** Escaping every byte and decoding gives the bytes back. *)
Lemma url_PathUnescape_escape_all (bytes : string) :
  url_PathUnescape (escape_all bytes) = Some bytes.
Proof.
  rewrite url_PathUnescape_spec.
  assert (H : well_escaped (escape_all bytes) = true
              ∧ percent_decode (escape_all bytes) = bytes).
  { induction bytes as [|c rest [IHw IHd]]; [done |].
    pose proof (nat_ascii_bounded c) as Hc.
    destruct (hexdigit_unhex (nat_of_ascii c / 16)) as [Ha Hua].
    { apply Nat.Div0.div_lt_upper_bound. lia. }
    destruct (hexdigit_unhex (nat_of_ascii c mod 16)) as [Hb Hub].
    { apply Nat.mod_upper_bound. lia. }
    cbn [escape_all well_escaped]. rewrite decide_True by done.
    rewrite Ha, Hb, IHw. split; [done |].
    rewrite percent_decode_escape by done. rewrite Hua, Hub, IHd.
    f_equal. rewrite Nat.mul_comm, <- Nat.div_mod_eq. apply ascii_nat_embedding. }
  destruct H as [-> ->]. done.
Qed.

(** ** A valid request line *)



Example percent_decode_test : percent_decode "/test%20file.html" = "/test file.html".
Proof. reflexivity. Qed.

(** ** Decimal numbers *)

Lemma occurs_string_of_uint c u :
  byte_in "0" "9" c = false -> occurs c (NilEmpty.string_of_uint u) = false.
Proof.
  intros Hc. induction u; simpl; [done | ..];
    rewrite IHu, bool_decide_eq_false_2; try done; intros <-; by vm_compute in Hc.
Qed.

Lemma occurs_itoa c z :
  byte_in "0" "9" c = false -> c ≠ "-"%char -> occurs c (itoa z) = false.
Proof.
  intros Hc Hm. unfold itoa.
  assert (Hu : ∀ u, occurs c (NilZero.string_of_uint u) = false).
  { intros u. destruct u; try apply (occurs_string_of_uint c _ Hc).
    simpl. rewrite bool_decide_eq_false_2; [done |]. intros <-. by vm_compute in Hc. }
  destruct z as [|q|q]; cbn [Z.to_int NilZero.string_of_int occurs]; try apply Hu.
  rewrite Hu, bool_decide_eq_false_2; done.
Qed.

Lemma atoi_itoa z : atoi (itoa z) = Some z.
Proof.
  unfold atoi, itoa. rewrite NilZero.isi.
  - simpl. by rewrite DecimalZ.of_to.
  - destruct z; simpl; try done.
    intros [= H]. by apply DecimalPos.Unsigned.to_uint_nonnil in H.
  - destruct z; simpl; try done.
    intros [= H]. by apply DecimalPos.Unsigned.to_uint_nonnil in H.
Qed.

(** ** Reading a response back *)

Lemma cut1_append a l r :
  occurs a l = false -> cut1 a (l +:+ String a r) = Some (l, r).
Proof.
  induction l as [|c l IH]; simpl; intros H.
  - by rewrite decide_True.
  - apply orb_false_iff in H as [H1 H2]. apply bool_decide_eq_false in H1.
    rewrite decide_False by done. by rewrite IH.
Qed.

Lemma cut2_append a b l r :
  occurs a l = false -> cut2 a b (l +:+ String a (String b r)) = Some (l, r).
Proof.
  induction l as [|c l IH]; intros H.
  - simpl. by rewrite decide_True.
  - simpl in H. apply orb_false_iff in H as [H1 H2]. apply bool_decide_eq_false in H1.
    change (String c l +:+ String a (String b r)) with (String c (l +:+ String a (String b r))).
    cbn [cut2]. destruct (l +:+ String a (String b r)) as [|d s''] eqn:E.
    { by destruct l. }
    rewrite decide_False by (intros [? _]; done).
    rewrite IH by done. done.
Qed.

Lemma parse_headers_render hs b fuel :
  forallb readable_header hs = true -> (length hs < fuel)%nat ->
  parse_headers fuel (render_headers hs +:+ CRLF +:+ b) = Some (hs, b).
Proof.
  revert fuel. induction hs as [|[k v] hs IH]; intros fuel Hwf Hfuel.
  - destruct fuel; [simpl in Hfuel; lia |]. done.
  - destruct fuel as [|fuel]; [simpl in Hfuel; lia |].
    simpl in Hwf. apply andb_true_iff in Hwf as [Hh Hwf].
    unfold readable_header in Hh. simpl in Hh.
    apply andb_true_iff in Hh as [Hh Hv]. apply andb_true_iff in Hh as [Hk1 Hk2].
    apply negb_true_iff in Hk1, Hk2, Hv.
    cbn [parse_headers render_headers foldr]. unfold render_header. cbn [fst snd].
    replace ((k +:+ ": " +:+ v +:+ CRLF) +:+ foldr (λ h acc, (h.1 +:+ ": " +:+ h.2 +:+ CRLF) +:+ acc) "" hs)
      with ((k +:+ ": " +:+ v) +:+ String CR (String LF (render_headers hs))).
    2:{ unfold render_headers, render_header, CRLF. by assoc_strings. }
    rewrite append_assoc. change (String CR (String LF (render_headers hs)) +:+ CRLF +:+ b)
      with (String CR (String LF (render_headers hs +:+ CRLF +:+ b))).
    rewrite cut2_append.
    2:{ rewrite occurs_append, Hk1. simpl. by rewrite Hv. }
    rewrite decide_False by (by destruct k).
    change (k +:+ ": " +:+ v) with (k +:+ String ":" (String " " v)).
    rewrite cut2_append by done. cbn [mbind option_bind].
    rewrite IH; [done | done | simpl in Hfuel; lia].
Qed.

Lemma render_headers_length hs b :
  (length hs < String.length (render_headers hs +:+ CRLF +:+ b))%nat.
Proof.
  induction hs as [|[k v] hs IH]; simpl; [lia |].
  unfold render_header. rewrite !length_append in *. simpl in *. lia.
Qed.

(** What [render] writes, [parse_response] reads back. *)
Lemma parse_response_render (r : Response) :
  readable r = true -> parse_response (render r) = Some r.
Proof.
  destruct r as [code reason hs b]. unfold readable, render.
  cbn [statusCode statusText headers body]. intros Hwf. apply andb_true_iff in Hwf as [Hr Hhs]. apply negb_true_iff in Hr.
  unfold parse_response.
  replace ("HTTP/1.1 " +:+ itoa code +:+ " " +:+ reason +:+ CRLF +:+ render_headers hs +:+ CRLF +:+ b)
    with (("HTTP/1.1 " +:+ itoa code +:+ " " +:+ reason)
          +:+ String CR (String LF (render_headers hs +:+ CRLF +:+ b))).
  2:{ unfold CRLF. by assoc_strings. }
  rewrite cut2_append.
  2:{ change ("HTTP/1.1 " +:+ itoa code +:+ " " +:+ reason)
        with ("HTTP/1.1 " +:+ (itoa code +:+ " " +:+ reason)).
      rewrite !occurs_append, occurs_itoa, Hr by done. done. }
  cbn [mbind option_bind].
  change ("HTTP/1.1 " +:+ itoa code +:+ " " +:+ reason)
    with ("HTTP/1.1 " +:+ (itoa code +:+ " " +:+ reason)).
  rewrite strip_prefix_append. cbn [mbind option_bind].
  change (itoa code +:+ " " +:+ reason) with (itoa code +:+ String SP reason).
  rewrite cut1_append by (by apply occurs_itoa).
  cbn [mbind option_bind]. rewrite atoi_itoa. cbn [mbind option_bind].
  rewrite parse_headers_render; [done | done | apply render_headers_length].
Qed.

(** ** What the handlers write *)

Lemma sendError_run code message s :
  sendError code message s
  = (tt, {| written := written s +:+ render (error_response code message);
            closed := closed s; fs_calls := fs_calls s |}).
Proof.
  unfold sendError, conn_Write, render, error_response, render_headers, render_header.
  do 2 f_equal. by assoc_strings.
Qed.

Lemma sendFile_run env path s file info :
  os_Open env path = OsOk file -> file_Stat file = OsOk info ->
  sendFile env path s
  = (tt, {| written := written s +:+
                       render (file_response (content_type env path) (Size info) (file_bytes file));
            closed := closed s; fs_calls := fs_calls s ++ [CallOpen path] |}).
Proof.
  intros Hopen Hstat.
  unfold sendFile, bind, fs_call, io_Copy, conn_Write. rewrite Hopen, Hstat. cbn [written closed fs_calls].
  unfold render, file_response, render_headers, render_header, content_type.
  do 2 f_equal. by assoc_strings.
Qed.

Lemma sendFile_unreadable env path s :
  (∃ e, os_Open env path = OsErr e)
  ∨ (∃ file e, os_Open env path = OsOk file ∧ file_Stat file = OsErr e) ->
  sendFile env path s
  = (tt, {| written := written s +:+ render (error_response 500 "Internal Server Error");
            closed := closed s; fs_calls := fs_calls s ++ [CallOpen path] |}).
Proof.
  intros [[e Hopen] | (file & e & Hopen & Hstat)];
    unfold sendFile, bind, fs_call; rewrite Hopen, ?Hstat; by rewrite sendError_run.
Qed.

Lemma generateDirectoryListing_run env path fullPath s files :
  os_ReadDir env fullPath = OsOk files ->
  generateDirectoryListing env path fullPath s
  = (tt, {| written := written s +:+ render (listing_response (listing_document path files));
            closed := closed s; fs_calls := fs_calls s ++ [CallReadDir fullPath] |}).
Proof.
  intros Hread.
  unfold generateDirectoryListing, bind, fs_call, conn_Write. rewrite Hread. cbn [written closed fs_calls].
  unfold render, listing_response, render_headers, render_header.
  do 2 f_equal. cbn [statusCode statusText headers body foldr fst snd].
  generalize (listing_document path files). intros doc. by assoc_strings.
Qed.

Lemma generateDirectoryListing_unreadable env path fullPath s e :
  os_ReadDir env fullPath = OsErr e ->
  generateDirectoryListing env path fullPath s
  = (tt, {| written := written s +:+ render (error_response 500 "Internal Server Error");
            closed := closed s; fs_calls := fs_calls s ++ [CallReadDir fullPath] |}).
Proof.
  intros Hread. unfold generateDirectoryListing, bind, fs_call. rewrite Hread.
  by rewrite sendError_run.
Qed.

Lemma exec_then_close (m : M unit) (s : State) :
  exec (m ;;; conn_Close) s
  = {| written := written (exec m s); closed := S (closed (exec m s));
       fs_calls := fs_calls (exec m s) |}.
Proof. unfold exec, bind, conn_Close. by destruct (m s). Qed.

(** The handler closes the connection once, whatever it answers. *)
Lemma handleConnection_run env input :
  exec (handleConnection env input) initial
  = let s := exec (match parseRequest input with
                   | Err _ => sendError 400 "Bad Request"
                   | Ok (method, path, version) =>
                       match validateRequest method version with
                       | Some err => sendError 400 err
                       | None => serveResource env path
                       end
                   end) initial in
    {| written := written s; closed := S (closed s); fs_calls := fs_calls s |}.
Proof. unfold handleConnection. apply exec_then_close. Qed.

Lemma readable_error_response code message :
  occurs CR message = false -> readable (error_response code message) = true.
Proof.
  intros H. unfold readable, error_response, readable_header. simpl.
  rewrite H. simpl. by rewrite occurs_itoa.
Qed.

Lemma readable_file_response ct size bytes :
  occurs CR ct = false -> readable (file_response ct size bytes) = true.
Proof.
  intros H. unfold readable, file_response, readable_header. simpl.
  rewrite H. simpl. by rewrite occurs_itoa.
Qed.

Lemma readable_listing_response document :
  readable (listing_response document) = true.
Proof.
  unfold readable, listing_response, readable_header. simpl. by rewrite occurs_itoa.
Qed.

(** ** Validation *)

Lemma validateRequest_None method version :
  validateRequest method version = None
  ↔ method = "GET" ∧ strings_HasPrefix version "HTTP" = true.
Proof.
  unfold validateRequest.
  destruct (strings_HasPrefix version "HTTP"); simpl.
  - destruct (decide (method ≠ "GET")) as [Hm|Hm].
    + split; [discriminate | intros [? _]; contradiction].
    + split; [|done]. intros _. split; [|done].
      by destruct (decide (method = "GET")).
  - split; [discriminate | intros [_ ?]; discriminate].
Qed.

Lemma validateRequest_messages method version reason :
  validateRequest method version = Some reason ->
  reason = "invalid HTTP version" ∨ reason = "method not allowed".
Proof.
  unfold validateRequest.
  destruct (negb _); [intros [= <-]; by left |].
  destruct (decide _); [intros [= <-]; by right | discriminate].
Qed.

(** C3: a parsed request passes validation exactly when its method is
    [GET] and its version starts with [HTTP]; when validation fails, the
    client reads a response of status 400 that carries the reason, and
    the handler has made no filesystem call. *)
Theorem validateRequest_GET_HTTP_else_400 (env : Env) (input method path version : string) :
  parseRequest input = Ok (method, path, version) ->
  (validateRequest method version = None
   ↔ method = "GET" ∧ strings_HasPrefix version "HTTP" = true) ∧
  (validateRequest method version ≠ None ->
   ∃ reason,
     validateRequest method version = Some reason ∧
     parse_response (response_of env input) = Some (error_response 400 reason) ∧
     statusCode (error_response 400 reason) = 400 ∧
     fs_calls (exec (handleConnection env input) initial) = []).
Proof.
  intros Hparse. split; [apply validateRequest_None |].
  intros Hfail. destruct (validateRequest method version) as [reason|] eqn:Hv; [|done].
  exists reason. split; [done |].
  unfold response_of. rewrite handleConnection_run, Hparse, Hv.
  unfold exec. rewrite sendError_run. cbn [snd written fs_calls initial].
  split; [|done].
  change ("" +:+ render (error_response 400 reason)) with (render (error_response 400 reason)).
  apply parse_response_render, readable_error_response.
  by destruct (validateRequest_messages _ _ _ Hv) as [-> | ->].
Qed.

Lemma validateRequest_GET_HTTP_else_400_witness :
  (validateRequest "POST" ("HTTP/1.1" +:+ CRLF) = None
   ↔ "POST" = "GET" ∧ strings_HasPrefix ("HTTP/1.1" +:+ CRLF) "HTTP" = true) ∧
  (validateRequest "POST" ("HTTP/1.1" +:+ CRLF) ≠ None ->
   ∃ reason,
     validateRequest "POST" ("HTTP/1.1" +:+ CRLF) = Some reason ∧
     parse_response (response_of example_host ("POST / HTTP/1.1" +:+ CRLF))
     = Some (error_response 400 reason) ∧
     statusCode (error_response 400 reason) = 400 ∧
     fs_calls (exec (handleConnection example_host ("POST / HTTP/1.1" +:+ CRLF)) initial) = []).
Proof.
  apply (validateRequest_GET_HTTP_else_400 example_host ("POST / HTTP/1.1" +:+ CRLF) "POST" "/").
  reflexivity.
Defined.

(** C10: when the method is not [GET] and the version does not start
    with [HTTP], [validateRequest] reports the version, which it checks
    first, and the body of the 400 response is the version message. *)
Theorem validateRequest_version_first (env : Env) (input method path version : string) :
  parseRequest input = Ok (method, path, version) ->
  method ≠ "GET" -> strings_HasPrefix version "HTTP" = false ->
  validateRequest method version = Some "invalid HTTP version" ∧
  validateRequest method version ≠ Some "method not allowed" ∧
  ∃ r, parse_response (response_of env input) = Some r ∧
       statusCode r = 400 ∧ body r = "invalid HTTP version".
Proof.
  intros Hparse Hm Hv.
  assert (Hval : validateRequest method version = Some "invalid HTTP version").
  { unfold validateRequest. by rewrite Hv. }
  split; [done |]. split; [by rewrite Hval |].
  exists (error_response 400 "invalid HTTP version").
  unfold response_of. rewrite handleConnection_run, Hparse, Hval.
  unfold exec. rewrite sendError_run. done.
Qed.

Lemma validateRequest_version_first_witness :
  validateRequest "POST" ("FTP/1.1" +:+ CRLF) = Some "invalid HTTP version" ∧
  validateRequest "POST" ("FTP/1.1" +:+ CRLF) ≠ Some "method not allowed" ∧
  ∃ r, parse_response (response_of example_host ("POST / FTP/1.1" +:+ CRLF)) = Some r ∧
       statusCode r = 400 ∧ body r = "invalid HTTP version".
Proof.
  apply (validateRequest_version_first example_host ("POST / FTP/1.1" +:+ CRLF) "POST" "/");
    [reflexivity | discriminate | reflexivity].
Defined.

(** ** Resource resolution *)

Lemma serveResource_run env path :
  serveResource env path initial
  = let fullPath := filepath_Join [dir env; path] in
    match os_Stat env fullPath with
    | OsErr e =>
        if os_IsNotExist e then sendError 404 "Not Found" (after_calls [CallStat fullPath])
        else sendError 500 "Internal Server Error" (after_calls [CallStat fullPath])
    | OsOk fi =>
        if IsDir fi
        then generateDirectoryListing env path fullPath (after_calls [CallStat fullPath])
        else sendFile env fullPath (after_calls [CallStat fullPath])
    end.
Proof.
  unfold serveResource, bind, fs_call. cbv zeta.
  destruct (os_Stat env (filepath_Join [dir env; path])) as [fi|e];
    [destruct (IsDir fi) | destruct (os_IsNotExist e)]; reflexivity.
Qed.

Lemma content_type_no_CR env path :
  (∀ ext, occurs CR (mime_TypeByExtension env ext) = false) ->
  occurs CR (content_type env path) = false.
Proof.
  intros Hmime. unfold content_type.
  destruct (decide (mime_TypeByExtension env (filepath_Ext path) = "")); [done | apply Hmime].
Qed.



(** ** Files *)

(** C5, as the code has it: for a regular file of [size] bytes that can
    be opened and whose metadata can be read from the open file,
    [sendFile] writes a response of status 200 whose [Content-Length] is
    the size, whose [Content-Type] is what the MIME table gives for the
    extension of the path, or [application/octet-stream] when the table
    has no type for it, and whose body is the bytes of the file; a
    client reads exactly that back. *)
Theorem sendFile_response (env : Env) (path : string) (size : Z) (bytes : string) :
  regular_file env path size bytes ->
  let s := exec (sendFile env path) initial in
  let known := mime_TypeByExtension env (filepath_Ext path) in
  let contentType := if decide (known = "") then "application/octet-stream" else known in
  written s
  = "HTTP/1.1 200 OK" +:+ CRLF +:+ "Content-Type: " +:+ contentType +:+ CRLF +:+
    "Content-Length: " +:+ itoa size +:+ CRLF +:+ CRLF +:+ bytes ∧
  written s = render (file_response contentType size bytes) ∧
  (occurs CR contentType = false ->
   parse_response (written s)
   = Some {| statusCode := 200; statusText := "OK";
             headers := [("Content-Type", contentType); ("Content-Length", itoa size)];
             body := bytes |}) ∧
  atoi (itoa size) = Some (len bytes).
Proof.
  intros (file & info & Hopen & Hstat & _ & <- & <- & Hlen) s known contentType.
  assert (Hs : written s = render (file_response contentType (Size info) (file_bytes file))).
  { subst s. unfold exec. by rewrite (sendFile_run _ _ _ file info Hopen Hstat). }
  split; [|split; [done |split]].
  - rewrite Hs. unfold render, file_response, render_headers, render_header.
    cbn [statusCode statusText headers body foldr fst snd]. by assoc_strings.
  - intros Hct. rewrite Hs. by apply parse_response_render, readable_file_response.
  - by rewrite atoi_itoa, Hlen.
Qed.

Lemma sendFile_response_witness :
  let s := exec (sendFile example_host "/srv/www/index.html") initial in
  written s
  = "HTTP/1.1 200 OK" +:+ CRLF +:+ "Content-Type: " +:+ "text/html; charset=utf-8" +:+ CRLF +:+
    "Content-Length: " +:+ itoa 11 +:+ CRLF +:+ CRLF +:+ "hello world" ∧
  written s = render (file_response "text/html; charset=utf-8" 11 "hello world") ∧
  (occurs CR "text/html; charset=utf-8" = false ->
   parse_response (written s)
   = Some {| statusCode := 200; statusText := "OK";
             headers := [("Content-Type", "text/html; charset=utf-8");
                         ("Content-Length", itoa 11)];
             body := "hello world" |}) ∧
  atoi (itoa 11) = Some (len "hello world").
Proof.
  apply (sendFile_response example_host "/srv/www/index.html" 11 "hello world").
  exists (regular "hello world"), a_file. by repeat split.
Defined.

(** C5, as the specification words it, fails for an existing regular
    file that cannot be opened: on the example host [/srv/www/secret] is
    a regular file of 11 bytes for [os.Stat], [os.Open] refuses it, and
    both [sendFile] and the handler of [GET /secret] answer 500, not
    200. *)
Lemma existing_file_not_opened_500 :
  let input := "GET /secret HTTP/1.1" +:+ CRLF in
  parseRequest input = Ok ("GET", "/secret", "HTTP/1.1" +:+ CRLF) ∧
  filepath_Join [dir example_host; "/secret"] = "/srv/www/secret" ∧
  os_Stat example_host "/srv/www/secret" = OsOk {| IsDir := false; Size := 11 |} ∧
  os_Open example_host "/srv/www/secret" = OsErr EACCES ∧
  parse_response (written (exec (sendFile example_host "/srv/www/secret") initial))
  = Some (error_response 500 "Internal Server Error") ∧
  parse_response (response_of example_host input)
  = Some (error_response 500 "Internal Server Error") ∧
  statusCode (error_response 500 "Internal Server Error") ≠ 200.
Proof. cbv zeta. repeat split; try reflexivity. discriminate. Qed.

(** A file without a known extension is served as
    [application/octet-stream]. *)
Example sendFile_unknown_extension :
  parse_response (written (exec (sendFile example_host "/etc/passwd") initial))
  = Some (file_response "application/octet-stream" 11 "root:x:0:0:").
Proof. reflexivity. Qed.

(** ** The two headers *)

Lemma handleConnection_canonical env input :
  ∃ r, response_of env input = render r ∧ canonical env r.
Proof.
  unfold response_of. rewrite handleConnection_run. cbv zeta. cbn [written].
  destruct (parseRequest input) as [[[method path] version]|msg].
  2:{ unfold exec. rewrite sendError_run. eexists. split; [done |]. by constructor. }
  destruct (validateRequest method version) as [reason|] eqn:Hv.
  { unfold exec. rewrite sendError_run. eexists. split; [done |]. constructor.
    by destruct (validateRequest_messages _ _ _ Hv) as [-> | ->]. }
  unfold exec. rewrite serveResource_run. cbv zeta.
  set (fullPath := filepath_Join [dir env; path]).
  destruct (os_Stat env fullPath) as [fi|e].
  2:{ destruct (os_IsNotExist e); rewrite sendError_run;
        (eexists; split; [done |]; by constructor). }
  destruct (IsDir fi).
  - destruct (os_ReadDir env fullPath) as [files|e] eqn:Hread.
    + rewrite (generateDirectoryListing_run _ _ _ _ files Hread).
      eexists. split; [done |]. constructor.
    + rewrite (generateDirectoryListing_unreadable _ _ _ _ e Hread).
      eexists. split; [done |]. by constructor.
  - destruct (os_Open env fullPath) as [file|e] eqn:Hopen.
    + destruct (file_Stat file) as [info|e] eqn:Hstat.
      * rewrite (sendFile_run _ _ _ file info Hopen Hstat).
        eexists. split; [done |]. constructor.
      * rewrite sendFile_unreadable by (right; eauto).
        eexists. split; [done |]. by constructor.
    + rewrite sendFile_unreadable by (left; eauto).
      eexists. split; [done |]. by constructor.
Qed.

(** C7: whatever the request and the filesystem, the bytes the handler
    writes are a status line, a [Content-Type] header, a
    [Content-Length] header, a blank line and a body; when no type of
    the MIME table holds a CR, a client reads back exactly these two
    headers and no other. *)
Theorem responses_have_two_headers (env : Env) (input : string) :
  ∃ r, response_of env input = render r ∧
       map fst (headers r) = ["Content-Type"; "Content-Length"] ∧
       ((∀ ext, occurs CR (mime_TypeByExtension env ext) = false) ->
        parse_response (response_of env input) = Some r).
Proof.
  destruct (handleConnection_canonical env input) as (r & Hr & Hcan).
  exists r. split; [done |]. split; [by destruct Hcan |].
  intros Hmime. rewrite Hr. apply parse_response_render.
  destruct Hcan.
  - by apply readable_error_response.
  - by apply readable_file_response, content_type_no_CR.
  - apply readable_listing_response.
Qed.

(** ** Directory listings *)

Lemma fold_left_append (f : string -> string) (l : list string) (init : string) :
  fold_left (fun b x => b +:+ f x) l init = init +:+ concat_strings (map f l).
Proof.
  revert init. induction l as [|x l IH]; intros init; simpl.
  - by rewrite append_nil_r.
  - by rewrite IH, append_assoc.
Qed.

Lemma listing_document_items path files :
  listing_document path files
  = "<html><head><title>Directory Listing</title></head><body><h1>Directory Listing</h1><ul>"
    +:+ concat_strings (map (listing_item path) files) +:+ "</ul></body></html>".
Proof. unfold listing_document. by rewrite fold_left_append, append_assoc. Qed.

Lemma strings_TrimPrefix_none s pre :
  strings_HasPrefix s pre = false -> strings_TrimPrefix s pre = s.
Proof. unfold strings_TrimPrefix. by intros ->. Qed.

(** C6, as the code has it: for a directory that can be read, the
    response has status 200 and type [text/html]; its body is the
    opening tags, one list item per entry in the order of [os.ReadDir],
    and the closing tags; the link of an item points to the request path
    without one leading dot, joined with the entry's name, and shows the
    name; [Content-Length] is the byte length of the body.  For a request
    path that does not start with a dot the link is the request path
    joined with the name. *)
Theorem generateDirectoryListing_response
    (env : Env) (path fullPath : string) (files : list string) :
  os_ReadDir env fullPath = OsOk files ->
  let s := exec (generateDirectoryListing env path fullPath) initial in
  let item name :=
    "<li><a href=" +:+ DQUOTE +:+ filepath_Join [strings_TrimPrefix path "."; name]
    +:+ DQUOTE +:+ ">" +:+ name +:+ "</a></li>" in
  let document :=
    "<html><head><title>Directory Listing</title></head><body><h1>Directory Listing</h1><ul>"
    +:+ concat_strings (map item files) +:+ "</ul></body></html>" in
  parse_response (written s)
  = Some {| statusCode := 200; statusText := "OK";
            headers := [("Content-Type", "text/html");
                        ("Content-Length", itoa (Z.of_nat (String.length document)))];
            body := document |} ∧
  length (map item files) = length files ∧
  (strings_HasPrefix path "." = false ->
   ∀ name, filepath_Join [strings_TrimPrefix path "."; name] = filepath_Join [path; name]).
Proof.
  intros Hread s item document.
  assert (Hdoc : listing_document path files = document).
  { by rewrite listing_document_items. }
  split; [|split].
  - subst s. unfold exec. rewrite (generateDirectoryListing_run _ _ _ _ files Hread).
    cbn [snd written initial]. rewrite Hdoc.
    change ("" +:+ render (listing_response document)) with (render (listing_response document)).
    apply parse_response_render, readable_listing_response.
  - by rewrite length_map.
  - intros Hdot name. by rewrite strings_TrimPrefix_none.
Qed.

Lemma generateDirectoryListing_response_witness :
  let s := exec (generateDirectoryListing example_host "/docs" "/srv/www/docs") initial in
  let item name :=
    "<li><a href=" +:+ DQUOTE +:+ filepath_Join [strings_TrimPrefix "/docs" "."; name]
    +:+ DQUOTE +:+ ">" +:+ name +:+ "</a></li>" in
  let document :=
    "<html><head><title>Directory Listing</title></head><body><h1>Directory Listing</h1><ul>"
    +:+ concat_strings (map item ["a.txt"; "b.txt"]) +:+ "</ul></body></html>" in
  parse_response (written s)
  = Some {| statusCode := 200; statusText := "OK";
            headers := [("Content-Type", "text/html");
                        ("Content-Length", itoa (Z.of_nat (String.length document)))];
            body := document |} ∧
  length (map item ["a.txt"; "b.txt"]) = length ["a.txt"; "b.txt"] ∧
  (strings_HasPrefix "/docs" "." = false ->
   ∀ name, filepath_Join [strings_TrimPrefix "/docs" "."; name] = filepath_Join ["/docs"; name]).
Proof.
  apply (generateDirectoryListing_response example_host "/docs" "/srv/www/docs" ["a.txt"; "b.txt"]).
  reflexivity.
Defined.

(** C6, as the specification words it, fails for a request path that
    starts with a dot: the root of the example host holds the directory
    [.hidden] with the entry [a.txt]; the request [GET .hidden HTTP/1.1]
    is answered with a listing whose link points to [hidden/a.txt],
    while the request path joined with the name is [.hidden/a.txt]. *)
Lemma listing_link_drops_leading_dot :
  let input := "GET .hidden HTTP/1.1" +:+ CRLF in
  parseRequest input = Ok ("GET", ".hidden", "HTTP/1.1" +:+ CRLF) ∧
  os_Stat example_host (filepath_Join [dir example_host; ".hidden"]) = OsOk a_directory ∧
  os_ReadDir example_host (filepath_Join [dir example_host; ".hidden"]) = OsOk ["a.txt"] ∧
  body <$> parse_response (response_of example_host input)
  = Some ("<html><head><title>Directory Listing</title></head><body><h1>Directory Listing</h1><ul>"
          +:+ "<li><a href=" +:+ DQUOTE +:+ "hidden/a.txt" +:+ DQUOTE +:+ ">a.txt</a></li>"
          +:+ "</ul></body></html>") ∧
  filepath_Join [".hidden"; "a.txt"] = ".hidden/a.txt" ∧
  filepath_Join [".hidden"; "a.txt"] ≠ "hidden/a.txt".
Proof. cbv zeta. repeat split; try reflexivity. discriminate. Qed.

(** ** [filepath.Join] and the served root *)

Lemma strings_Split_app s sep t :
  strings_Split (s +:+ String sep t) sep = strings_Split s sep ++ strings_Split t sep.
Proof.
  induction s as [|c s IH]; simpl.
  - by rewrite decide_True.
  - destruct (decide (c = sep)); [by rewrite IH |].
    rewrite IH. pose proof (strings_Split_nonempty s sep).
    by destruct (strings_Split s sep).
Qed.

Lemma clean_elems_app rooted out l1 l2 :
  clean_elems rooted out (l1 ++ l2) = clean_elems rooted (clean_elems rooted out l1) l2.
Proof.
  revert out. induction l1 as [|e l1 IH]; intros out; [done |].
  simpl. repeat case_decide; try apply IH.
  destruct out as [|top out']; [destruct rooted; apply IH |].
  case_decide; apply IH.
Qed.

(** In a rooted path no [..] stays on the stack. *)
Lemma clean_elems_rooted_no_dotdot out l :
  Forall (λ e, e ≠ "..") out -> Forall (λ e, e ≠ "..") (clean_elems true out l).
Proof.
  revert out. induction l as [|e l IH]; intros out Hout; [done |].
  simpl. repeat case_decide; try by apply IH.
  - destruct out as [|top out']; [by apply IH |].
    case_decide; [by apply Forall_cons in Hout as [? _] |].
    apply IH. by apply Forall_cons in Hout as [_ ?].
  - apply IH. by constructor.
Qed.

Lemma clean_elems_length rooted out l :
  (length (clean_elems rooted out l) ≤ length out + length l)%nat.
Proof.
  revert out. induction l as [|e l IH]; intros out; simpl; [lia |].
  repeat case_decide; try (etrans; [apply IH |]; simpl; lia).
  destruct out as [|top out']; [destruct rooted |case_decide];
    (etrans; [apply IH |]; simpl; lia).
Qed.

(** Enough [..] elements empty the stack of a rooted path. *)
Lemma clean_elems_climb n out rest :
  Forall (λ e, e ≠ "..") out -> (length out ≤ n)%nat ->
  clean_elems true out (repeat ".." n ++ rest) = clean_elems true [] rest.
Proof.
  revert out. induction n as [|n IH]; intros out Hout Hlen.
  - destruct out; [done | simpl in Hlen; lia].
  - simpl. destruct out as [|top out']; [apply IH; [constructor | simpl; lia] |].
    apply Forall_cons in Hout as [Htop Hout].
    rewrite decide_False by done. apply IH; [done | simpl in Hlen; lia].
Qed.

Lemma strings_Split_climb n target :
  strings_Split (climb n target) "/" = repeat ".." n ++ strings_Split target "/".
Proof.
  induction n as [|n IH]; [done |].
  change (climb (S n) target) with (".." +:+ String "/" (climb n target)).
  by rewrite strings_Split_append, IH.
Qed.

Lemma HasPrefix_slash_append root s :
  strings_HasPrefix root "/" = true -> strings_HasPrefix (root +:+ s) "/" = true.
Proof.
  destruct root as [|c root]; [done |]. unfold strings_HasPrefix.
  change (String c root +:+ s) with (String c (root +:+ s)). cbn [String.prefix].
  destruct (ascii_dec "/" c); [|done]. intros _. by destruct (root +:+ s).
Qed.

(** From an absolute served root, climbing as many directories as the
    root has elements reaches any absolute path. *)
Lemma filepath_Join_climb root target :
  strings_HasPrefix root "/" = true ->
  filepath_Join [root; climb (length (strings_Split root "/")) target]
  = "/" +:+ strings_Join (path_elements target) "/".
Proof.
  intros Hroot. assert (root ≠ "") by (by intros ->).
  cbn [filepath_Join]. rewrite decide_True by done.
  cbn [strings_Join]. unfold filepath_Clean.
  rewrite decide_False by (by destruct root).
  rewrite HasPrefix_slash_append by done.
  change (root +:+ "/" +:+ ?p) with (root +:+ String "/" p).
  rewrite strings_Split_app, strings_Split_climb, clean_elems_app.
  rewrite clean_elems_climb; [done | | ].
  - by apply clean_elems_rooted_no_dotdot.
  - etrans; [apply clean_elems_length | done].
Qed.

Lemma In_dotdot_climb n target :
  ".." ∈ strings_Split (climb (S n) target) "/".
Proof. rewrite strings_Split_climb. simpl. apply list_elem_of_here. Qed.

Lemma filepath_Clean_absolute target :
  filepath_Clean ("/" +:+ target) = "/" +:+ strings_Join (path_elements target) "/".
Proof.
  unfold filepath_Clean, path_elements.
  rewrite decide_False by done.
  assert (Hp : strings_HasPrefix ("/" +:+ target) "/" = true) by (by destruct target).
  rewrite Hp. change ("/" +:+ target) with (String "/" target).
  cbn [strings_Split]. rewrite decide_True by done.
  cbn [clean_elems]. by rewrite decide_True.
Qed.

(** The first filesystem call of [serveResource] is the query of the
    joined path. *)
Lemma serveResource_first_call env path :
  ∃ more, fs_calls (exec (serveResource env path) initial)
          = CallStat (filepath_Join [dir env; path]) :: more.
Proof.
  unfold exec. rewrite serveResource_run. cbv zeta.
  set (fullPath := filepath_Join [dir env; path]).
  destruct (os_Stat env fullPath) as [fi|e].
  2:{ destruct (os_IsNotExist e); rewrite sendError_run; by eexists. }
  destruct (IsDir fi).
  - destruct (os_ReadDir env fullPath) as [files|e] eqn:Hread.
    + rewrite (generateDirectoryListing_run _ _ _ _ files Hread). by eexists.
    + rewrite (generateDirectoryListing_unreadable _ _ _ _ e Hread). by eexists.
  - destruct (os_Open env fullPath) as [file|e] eqn:Hopen.
    + destruct (file_Stat file) as [info|e] eqn:Hstat.
      * rewrite (sendFile_run _ _ _ file info Hopen Hstat). by eexists.
      * rewrite sendFile_unreadable by (right; eauto). by eexists.
    + rewrite sendFile_unreadable by (left; eauto). by eexists.
Qed.

(** C8: [serveResource] queries the filesystem at the served root joined
    with the request path, whatever the path, with no check in between;
    and from an absolute served root a request path of [..] segments
    reaches any absolute path, so for every path outside the root there
    is a request path with [..] segments whose joined path is that path,
    and it is queried. *)
Theorem serveResource_leaves_root (env : Env) (target : string) :
  strings_HasPrefix (dir env) "/" = true ->
  within_root (dir env) (filepath_Clean ("/" +:+ target)) = false ->
  (∀ path, ∃ more,
     fs_calls (exec (serveResource env path) initial)
     = CallStat (filepath_Join [dir env; path]) :: more) ∧
  ∃ path,
    ".." ∈ strings_Split path "/" ∧
    filepath_Join [dir env; path] = filepath_Clean ("/" +:+ target) ∧
    within_root (dir env) (filepath_Join [dir env; path]) = false ∧
    head (fs_calls (exec (serveResource env path) initial))
    = Some (CallStat (filepath_Clean ("/" +:+ target))).
Proof.
  intros Hroot Hout. split; [apply serveResource_first_call |].
  exists (climb (length (strings_Split (dir env) "/")) target).
  assert (Hjoin : filepath_Join [dir env; climb (length (strings_Split (dir env) "/")) target]
                  = filepath_Clean ("/" +:+ target)).
  { by rewrite filepath_Join_climb, filepath_Clean_absolute. }
  split; [|split; [done | split]].
  - pose proof (strings_Split_nonempty (dir env) "/").
    destruct (strings_Split (dir env) "/"); [done | apply In_dotdot_climb].
  - by rewrite Hjoin.
  - destruct (serveResource_first_call env (climb (length (strings_Split (dir env) "/")) target))
      as [more ->].
    by rewrite Hjoin.
Qed.

Lemma serveResource_leaves_root_witness :
  (∀ path, ∃ more,
     fs_calls (exec (serveResource example_host path) initial)
     = CallStat (filepath_Join [dir example_host; path]) :: more) ∧
  ∃ path,
    ".." ∈ strings_Split path "/" ∧
    filepath_Join [dir example_host; path] = filepath_Clean ("/" +:+ "etc/passwd") ∧
    within_root (dir example_host) (filepath_Join [dir example_host; path]) = false ∧
    head (fs_calls (exec (serveResource example_host path) initial))
    = Some (CallStat (filepath_Clean ("/" +:+ "etc/passwd"))).
Proof.
  apply (serveResource_leaves_root example_host "etc/passwd"); reflexivity.
Defined.

(** The same on the wire: an escaped [..] in the request line is decoded
    by [parseRequest], and the handler serves a file outside the served
    root [/srv/www]. *)
Example traversal_serves_outside_root :
  let input := "GET /%2e%2e/%2e%2e/etc/passwd HTTP/1.1" +:+ CRLF in
  parseRequest input = Ok ("GET", "/../../etc/passwd", "HTTP/1.1" +:+ CRLF) ∧
  filepath_Join [dir example_host; "/../../etc/passwd"] = "/etc/passwd" ∧
  within_root (dir example_host) "/etc/passwd" = false ∧
  fs_calls (exec (handleConnection example_host input) initial)
  = [CallStat "/etc/passwd"; CallOpen "/etc/passwd"] ∧
  parse_response (response_of example_host input)
  = Some (file_response "application/octet-stream" 11 "root:x:0:0:").
Proof. cbv zeta. repeat split; reflexivity. Qed.

(** ** The worker pool *)

Lemma pool_inv_step workers p p' :
  pool_inv workers p -> pool_step workers p p' -> pool_inv workers p'.
Proof.
  unfold pool_inv. intros Hinv Hstep.
  destruct Hstep; cbn [main_pc pool] in *.
  - destruct Hinv as [<- Hle]. rewrite length_app. simpl. lia.
  - destruct Hinv as [<- Hle]. lia.
  - done.
  - done.
  - by rewrite length_insert.
  - rewrite length_insert. done.
Qed.

Lemma pool_inv_reachable workers p :
  pool_reachable workers p -> pool_inv workers p.
Proof.
  unfold pool_reachable. intros Hreach.
  eapply (rtc_ind_r (pool_inv workers) pool_start); [| | exact Hreach].
  - unfold pool_inv. simpl. split; [done | lia].
  - intros q q' _ Hstep IH. by eapply pool_inv_step.
Qed.

(** Replacing one worker's state changes the count by that worker. *)
Lemma in_flight_insert (ws : list WorkerPc) (j : nat) (w w' : WorkerPc) :
  ws !! j = Some w ->
  (length (filter is_handling (<[j := w']> ws)) + (if is_handling w then 1 else 0)
   = length (filter is_handling ws) + (if is_handling w' then 1 else 0))%nat.
Proof.
  intros Hj.
  rewrite insert_take_drop by (by eapply lookup_lt_Some).
  rewrite <- (take_drop_middle ws j w Hj) at 3.
  rewrite !filter_app, !filter_cons, !length_app.
  destruct w, w'; simpl; lia.
Qed.

Lemma in_flight_le_pool p : (in_flight p ≤ length (pool p))%nat.
Proof. apply length_filter. Qed.

(** When every worker is handling a connection, none is receiving. *)
Lemma all_handling_none_receiving p j :
  in_flight p = length (pool p) -> pool p !! j ≠ Some Receiving.
Proof.
  intros Hall Hj. unfold in_flight in Hall.
  assert (Hlt : (length (filter is_handling (pool p)) < length (pool p))%nat).
  { apply (length_filter_lt is_handling (pool p) Receiving).
    - by eapply list_elem_of_lookup_2.
    - simpl. tauto. }
  lia.
Qed.

(** C9: with [workers = k], at most [k] connections are inside
    [handleConnection] at any time; the loop of [main] starts exactly
    [k] workers, and once it is done the pool has exactly [k]; and when
    the acceptor holds a connection while every worker is handling one,
    the only thing that can happen is that a worker finishes: the
    acceptor stays in its send and accepts nothing. *)
Theorem pool_bounds_in_flight (workers : Z) (p : Pool) :
  0 ≤ workers -> pool_reachable workers p ->
  Z.of_nat (in_flight p) ≤ workers ∧
  Z.of_nat (length (pool p)) ≤ workers ∧
  ((∀ i, main_pc p ≠ Spawning i) -> Z.of_nat (length (pool p)) = workers) ∧
  (∀ conn, main_pc p = Sending conn -> in_flight p = length (pool p) ->
     ∀ p', pool_step workers p p' ->
       main_pc p' = Sending conn ∧ accepted p' = accepted p ∧
       S (in_flight p') = in_flight p).
Proof.
  intros Hk Hreach. pose proof (pool_inv_reachable _ _ Hreach) as Hinv.
  pose proof (in_flight_le_pool p) as Hle.
  assert (Hpool : (length (pool p) ≤ Z.to_nat workers)%nat).
  { unfold pool_inv in Hinv. destruct (main_pc p); lia. }
  split; [lia |]. split; [lia |]. split.
  - intros Hmain. unfold pool_inv in Hinv.
    destruct (main_pc p) as [i| | |]; [by destruct (Hmain i) | lia..].
  - intros conn Hmain Hall p' Hstep.
    destruct Hstep as [| | | |c j ws n Hj|c j m ws n _ Hj]; cbn [main_pc] in Hmain; try done.
    + exfalso. by eapply (all_handling_none_receiving _ j Hall).
    + cbn [main_pc accepted]. split; [done |]. split; [done |].
      unfold in_flight. cbn [pool].
      pose proof (in_flight_insert ws j (Handling c) Receiving Hj) as Hcount.
      simpl in Hcount. lia.
Qed.

Lemma pool_busy_reachable : pool_reachable 2 pool_busy.
Proof.
  unfold pool_reachable, pool_start, pool_busy.
  eapply rtc_l; [by apply (step_spawn 2 0 [] 0); simpl; lia |].
  eapply rtc_l; [by apply (step_spawn 2 1 [Receiving] 0); simpl; lia |].
  eapply rtc_l; [by apply (step_spawned 2 2); simpl; lia |].
  eapply rtc_l; [apply step_accept |].
  eapply rtc_l; [by apply (step_hand_off 2 0 0 [Receiving; Receiving]) |].
  eapply rtc_l; [apply step_accept |].
  eapply rtc_l; [by apply (step_hand_off 2 1 1 [Handling 0; Receiving]) |].
  eapply rtc_l; [apply step_accept |].
  apply rtc_refl.
Qed.

Lemma pool_bounds_in_flight_witness :
  Z.of_nat (in_flight pool_busy) ≤ 2 ∧
  Z.of_nat (length (pool pool_busy)) ≤ 2 ∧
  ((∀ i, main_pc pool_busy ≠ Spawning i) -> Z.of_nat (length (pool pool_busy)) = 2) ∧
  (∀ conn, main_pc pool_busy = Sending conn -> in_flight pool_busy = length (pool pool_busy) ->
     ∀ p', pool_step 2 pool_busy p' ->
       main_pc p' = Sending conn ∧ accepted p' = accepted pool_busy ∧
       S (in_flight p') = in_flight pool_busy).
Proof.
  apply (pool_bounds_in_flight 2 pool_busy); [lia | apply pool_busy_reachable].
Defined.

(** ** Further properties of the handler *)

(** [handleConnection] closes the connection exactly once, whatever the
    request and the filesystem. *)
Theorem handleConnection_closes_once (env : Env) (input : string) :
  closed (exec (handleConnection env input) initial) = 1%nat.
Proof.
  rewrite handleConnection_run. cbv zeta. cbn [closed]. f_equal.
  destruct (parseRequest input) as [[[method path] version]|msg].
  2:{ unfold exec. by rewrite sendError_run. }
  destruct (validateRequest method version) as [reason|].
  { unfold exec. by rewrite sendError_run. }
  unfold exec. rewrite serveResource_run. cbv zeta.
  set (fullPath := filepath_Join [dir env; path]).
  destruct (os_Stat env fullPath) as [fi|e].
  2:{ by destruct (os_IsNotExist e); rewrite sendError_run. }
  destruct (IsDir fi).
  - destruct (os_ReadDir env fullPath) as [files|e] eqn:Hread.
    + by rewrite (generateDirectoryListing_run _ _ _ _ files Hread).
    + by rewrite (generateDirectoryListing_unreadable _ _ _ _ e Hread).
  - destruct (os_Open env fullPath) as [file|e] eqn:Hopen.
    + destruct (file_Stat file) as [info|e] eqn:Hstat.
      * by rewrite (sendFile_run _ _ _ file info Hopen Hstat).
      * by rewrite sendFile_unreadable by (right; eauto).
    + by rewrite sendFile_unreadable by (left; eauto).
Qed.

Lemma ReadString_None input delim :
  ReadString input delim = None ↔ occurs delim input = false.
Proof.
  induction input as [|c input IH]; simpl; [done |].
  destruct (decide (c = delim)) as [->|Hc].
  - rewrite bool_decide_eq_true_2 by done. simpl. split; discriminate.
  - rewrite bool_decide_eq_false_2 by done. simpl. rewrite <- IH.
    destruct (ReadString input delim); simpl; split; (done || discriminate).
Qed.

(** [parseRequest] reports a missing line exactly when the input holds
    no line feed, a bad escape exactly when the line has three parts and
    the second is not well escaped, and otherwise the three parts with
    the second one decoded. *)
Theorem parseRequest_cases (input : string) :
  (parseRequest input = Err "invalid request format" ↔ occurs LF input = false) ∧
  (∀ line method rawPath version,
     ReadString input LF = Some line ->
     strings_Split line SP = [method; rawPath; version] ->
     parseRequest input
     = if well_escaped rawPath then Ok (method, percent_decode rawPath, version)
       else Err "invalid URL encoding").
Proof.
  split.
  - rewrite <- ReadString_None. unfold parseRequest.
    destruct (ReadString input LF) as [line|]; [|done].
    split; [|done]. destruct (decide _); [discriminate |].
    destruct (strings_Split line SP) as [|m [|p [|v [|x parts]]]]; try discriminate.
    destruct (url_PathUnescape p); discriminate.
  - intros line method rawPath version Hline Hparts.
    unfold parseRequest. rewrite Hline, Hparts. simpl.
    rewrite url_PathUnescape_spec. by destruct (well_escaped rawPath).
Qed.

(** A request that cannot be parsed is answered with [400 Bad Request],
    and no filesystem call is made. *)
Theorem parse_failure_400 (env : Env) (input msg : string) :
  parseRequest input = Err msg ->
  parse_response (response_of env input) = Some (error_response 400 "Bad Request") ∧
  fs_calls (exec (handleConnection env input) initial) = [].
Proof.
  intros Hparse. unfold response_of. rewrite handleConnection_run, Hparse.
  unfold exec. rewrite sendError_run. done.
Qed.

Lemma parse_failure_400_witness :
  parse_response (response_of example_host "GET /index.html")
  = Some (error_response 400 "Bad Request") ∧
  fs_calls (exec (handleConnection example_host "GET /index.html") initial) = [].
Proof.
  apply (parse_failure_400 example_host "GET /index.html" "invalid request format").
  reflexivity.
Defined.

(** ** The tests of the repository and of the libraries, on the model *)

Example TestParseRequest_valid :
  parseRequest ("GET /index.html HTTP/1.1" +:+ CRLF)
  = Ok ("GET", "/index.html", "HTTP/1.1" +:+ CRLF).
Proof. reflexivity. Qed.

Example TestParseRequest_missing_parts :
  parseRequest ("GET /index.html" +:+ CRLF) = Err "invalid Request line".
Proof. reflexivity. Qed.

Example TestParseRequest_empty : parseRequest "" = Err "invalid request format".
Proof. reflexivity. Qed.

Example TestParseRequest_encoded :
  parseRequest ("GET /test%20file.html HTTP/1.1" +:+ CRLF)
  = Ok ("GET", "/test file.html", "HTTP/1.1" +:+ CRLF).
Proof. reflexivity. Qed.

Example TestValidateRequest :
  validateRequest "GET" ("HTTP/1.1" +:+ CRLF) = None ∧
  validateRequest "POST" ("HTTP/1.1" +:+ CRLF) = Some "method not allowed" ∧
  validateRequest "GET" ("NOTHTTP/1.1" +:+ CRLF) = Some "invalid HTTP version".
Proof. by repeat split. Qed.

Example TestSendError :
  written (exec (sendError 404 "Not Found") initial)
  = "HTTP/1.1 404 Not Found" +:+ CRLF +:+ "Content-Type: text/plain" +:+ CRLF +:+
    "Content-Length: 9" +:+ CRLF +:+ CRLF +:+ "Not Found" ∧
  written (exec (sendError 500 "Internal Server Error") initial)
  = "HTTP/1.1 500 Internal Server Error" +:+ CRLF +:+ "Content-Type: text/plain" +:+ CRLF +:+
    "Content-Length: 21" +:+ CRLF +:+ CRLF +:+ "Internal Server Error".
Proof. by split. Qed.

Example TestHandleConnection :
  parse_response (response_of example_host ("GET /index.html HTTP/1.1" +:+ CRLF))
  = Some (file_response "text/html; charset=utf-8" 11 "hello world") ∧
  statusCode <$> parse_response (response_of example_host ("GET / HTTP/1.1" +:+ CRLF))
  = Some 200 ∧
  parse_response (response_of example_host ("GET /nonexistent.txt HTTP/1.1" +:+ CRLF))
  = Some (error_response 404 "Not Found") ∧
  parse_response (response_of example_host ("POST / HTTP/1.1" +:+ CRLF))
  = Some (error_response 400 "method not allowed") ∧
  parse_response (response_of example_host ("GET / FTP/1.1" +:+ CRLF))
  = Some (error_response 400 "invalid HTTP version").
Proof. by repeat split. Qed.

(** Cases of the table of [filepath.Clean]'s own tests. *)
Example filepath_Clean_table :
  map filepath_Clean
    [""; "abc"; "abc/def"; "."; ".."; "../.."; "../../abc"; "/abc"; "/";
     "abc/"; "./"; "../"; "/abc/"; "abc//def//ghi"; "//abc"; "///abc"; "//abc//";
     "abc/./def"; "/./abc/def"; "abc/."; "abc/def/ghi/../jkl"; "abc/def/../ghi/../jkl";
     "abc/def/.."; "abc/def/../.."; "/abc/def/../.."; "abc/def/../../..";
     "/abc/def/../../.."; "abc/def/../../../ghi/jkl/../../../mno"; "/../abc";
     "abc/./../def"; "abc//./../def"; "abc/../../././../def"]
  = ["."; "abc"; "abc/def"; "."; ".."; "../.."; "../../abc"; "/abc"; "/";
     "abc"; "."; ".."; "/abc"; "abc/def/ghi"; "/abc"; "/abc"; "/abc";
     "abc/def"; "/abc/def"; "abc"; "abc/def/jkl"; "abc/jkl";
     "abc"; "."; "/"; "..";
     "/"; "../../mno"; "/abc";
     "def"; "def"; "../../def"].
Proof. reflexivity. Qed.

Example filepath_Ext_table :
  map filepath_Ext ["path.go"; "path.pb.go"; "a.dir/b"; "a.dir/b.go"; "a.dir/"; "noext"]
  = [".go"; ".go"; ""; ".go"; ""; ""].
Proof. reflexivity. Qed.

(** A relative served root is left in the same way. *)
Example relative_root_left :
  filepath_Join ["."; "/../outside"] = "../outside" ∧
  filepath_Join ["www"; "/../../outside"] = "../outside".
Proof. by split. Qed.

(** ** The request line, read backwards *)

(** Joining the parts of a split gives the string back, and no part
    holds the separator. *)
Lemma strings_Join_Split s sep :
  strings_Join (strings_Split s sep) (String sep "") = s.
Proof.
  induction s as [|c s IH]; [done |]. cbn [strings_Split].
  pose proof (strings_Split_nonempty s sep) as Hne.
  destruct (decide (c = sep)) as [->|Hc].
  - destruct (strings_Split s sep) as [|part parts] eqn:E; [done |].
    change (strings_Join ("" :: part :: parts) (String sep ""))
      with (String sep (strings_Join (part :: parts) (String sep ""))).
    by rewrite IH.
  - destruct (strings_Split s sep) as [|part parts] eqn:E; [done |].
    destruct parts as [|part' parts]; simpl in *; by rewrite <- IH.
Qed.

Lemma strings_Split_parts s sep :
  Forall (λ part, occurs sep part = false) (strings_Split s sep).
Proof.
  induction s as [|c s IH]; cbn [strings_Split]; [by repeat constructor |].
  destruct (decide (c = sep)) as [->|Hc]; [by constructor |].
  destruct (strings_Split s sep) as [|part parts]; [repeat constructor|].
  - simpl. by rewrite bool_decide_eq_false_2.
  - apply Forall_cons in IH as [Hp Hps]. constructor; [|done].
    simpl. by rewrite bool_decide_eq_false_2.
Qed.

Lemma snoc_inj (a b : string) (c d : ascii) :
  a +:+ String c "" = b +:+ String d "" -> a = b ∧ c = d.
Proof.
  revert b. induction a as [|x a IH]; intros [|y b] H; simpl in H.
  - by injection H.
  - injection H as _ H. by destruct b.
  - injection H as _ H. by destruct a.
  - injection H as -> H. destruct (IH b H) as [-> ->]. done.
Qed.

Lemma append_eq_snoc (x y a : string) (d : ascii) :
  x +:+ y = a +:+ String d "" ->
  (y = "" ∧ x = a +:+ String d "") ∨ ∃ y0, y = y0 +:+ String d "" ∧ a = x +:+ y0.
Proof.
  revert a. induction x as [|c x IH]; intros a H.
  - right. by exists a.
  - destruct a as [|c' a].
    + simpl in H. injection H as -> H. left.
      destruct x; [|done]. simpl in H. by subst y.
    + simpl in H. injection H as -> H. destruct (IH a H) as [[-> ->] | (y0 & -> & ->)].
      * by left.
      * right. by exists y0.
Qed.

(** What a successful [parseRequest] says about the input: the input
    starts with the method, a space, the raw path, a space and the
    version; the path returned is the percent-decoded raw path; the
    version ends with the line feed that ended the line, which is the
    first line feed of the input; and no token holds a space. *)
Theorem parseRequest_Ok_inv (input method path version : string) :
  parseRequest input = Ok (method, path, version) ->
  ∃ rawPath version0 rest,
    input = method +:+ " " +:+ rawPath +:+ " " +:+ version +:+ rest ∧
    version = version0 +:+ String LF "" ∧
    well_escaped rawPath = true ∧ path = percent_decode rawPath ∧
    occurs SP method = false ∧ occurs SP rawPath = false ∧ occurs SP version = false ∧
    occurs LF method = false ∧ occurs LF rawPath = false ∧ occurs LF version0 = false.
Proof.
  unfold parseRequest. intros H.
  destruct (ReadString input LF) as [line|] eqn:Hline; [|done].
  destruct (decide _) as [|Hlen]; [done |].
  pose proof (strings_Join_Split line SP) as Hjoin.
  pose proof (strings_Split_parts line SP) as Hparts.
  destruct (strings_Split line SP) as [|m [|raw [|v [|x parts]]]]; try done.
  rewrite url_PathUnescape_spec in H.
  destruct (well_escaped raw) eqn:Hraw; [|done].
  injection H as -> <- ->.
  apply Forall_cons in Hparts as [Hm Hparts].
  apply Forall_cons in Hparts as [Hr Hparts].
  apply Forall_cons in Hparts as [Hv _].
  destruct (ReadString_line _ _ _ Hline) as (a & rest & -> & Hl & Ha).
  cbn [strings_Join] in Hjoin. rewrite Hl in Hjoin.
  assert (Hj : (method +:+ String SP "" +:+ raw +:+ String SP "") +:+ version
               = a +:+ String LF "").
  { rewrite <- Hjoin. by rewrite !append_assoc. }
  destruct (append_eq_snoc _ _ _ _ Hj) as [[-> Hx] | (v0 & -> & ->)].
  - assert (Hx' : (method +:+ String SP "" +:+ raw) +:+ String SP "" = a +:+ String LF "").
    { rewrite <- Hx. by rewrite !append_assoc. }
    by apply snoc_inj in Hx' as [_ ?].
  - exists raw, v0, rest.
    rewrite !occurs_append in Ha. simpl in Ha.
    apply orb_false_iff in Ha as [Ha Ha3]. apply orb_false_iff in Ha as [Ha1 Ha2].
    apply orb_false_iff in Ha2 as [Ha2 _].
    repeat split; try done.
    change (String SP "") with " "%string. by rewrite !append_assoc.
Qed.

Lemma parseRequest_Ok_inv_witness :
  ∃ rawPath version0 rest,
    "GET /a%20b HTTP/1.0" +:+ String LF "Host: x"
    = "GET" +:+ " " +:+ rawPath +:+ " " +:+ ("HTTP/1.0" +:+ String LF "") +:+ rest ∧
    "HTTP/1.0" +:+ String LF "" = version0 +:+ String LF "" ∧
    well_escaped rawPath = true ∧ "/a b" = percent_decode rawPath ∧
    occurs SP "GET" = false ∧ occurs SP rawPath = false ∧
    occurs SP ("HTTP/1.0" +:+ String LF "") = false ∧
    occurs LF "GET" = false ∧ occurs LF rawPath = false ∧ occurs LF version0 = false.
Proof.
  apply (parseRequest_Ok_inv ("GET /a%20b HTTP/1.0" +:+ String LF "Host: x")
           "GET" "/a b" ("HTTP/1.0" +:+ String LF "")).
  reflexivity.
Defined.

(** Nothing after the first line is read: the handler does the same on
    an input as on its first line alone. *)
Theorem handleConnection_first_line_only (env : Env) (line rest : string) :
  occurs LF line = false ->
  parseRequest (line +:+ String LF rest) = parseRequest (line +:+ String LF "") ∧
  exec (handleConnection env (line +:+ String LF rest)) initial
  = exec (handleConnection env (line +:+ String LF "")) initial.
Proof.
  intros Hline.
  assert (Hparse : parseRequest (line +:+ String LF rest) = parseRequest (line +:+ String LF "")).
  { unfold parseRequest. by rewrite !ReadString_append. }
  split; [done |]. by rewrite !handleConnection_run, Hparse.
Qed.

Lemma handleConnection_first_line_only_witness :
  parseRequest ("GET /index.html HTTP/1.1" +:+ String LF "Host: example.com")
  = parseRequest ("GET /index.html HTTP/1.1" +:+ String LF "") ∧
  exec (handleConnection example_host
          ("GET /index.html HTTP/1.1" +:+ String LF "Host: example.com")) initial
  = exec (handleConnection example_host ("GET /index.html HTTP/1.1" +:+ String LF "")) initial.
Proof.
  apply (handleConnection_first_line_only example_host "GET /index.html HTTP/1.1"
           "Host: example.com").
  reflexivity.
Defined.

Lemma hexdigit_plain (n : nat) (c : ascii) :
  (n < 16)%nat -> byte_in "0" "9" c = false -> byte_in "A" "F" c = false ->
  hexdigit n ≠ c.
Proof.
  intros Hn H1 H2 <-.
  do 16 (destruct n as [|n]; [by vm_compute in H1, H2 |]). lia.
Qed.

Lemma occurs_escape_all (c : ascii) (bytes : string) :
  c ≠ "%"%char -> byte_in "0" "9" c = false -> byte_in "A" "F" c = false ->
  occurs c (escape_all bytes) = false.
Proof.
  intros Hp H1 H2. induction bytes as [|b bytes IH]; [done |].
  pose proof (nat_ascii_bounded b) as Hb.
  cbn [escape_all occurs]. rewrite IH.
  rewrite !bool_decide_eq_false_2; [done | | | by intros <-].
  - apply hexdigit_plain; [apply Nat.mod_upper_bound; lia | done..].
  - apply hexdigit_plain; [apply Nat.Div0.div_lt_upper_bound; lia | done..].
Qed.

(** Every byte string arrives as a path: the request whose path is the
    escape of each byte of [bytes] is parsed into exactly [bytes],
    whatever they are (spaces, line feeds, [..] and NUL included). *)
Theorem parseRequest_escaped_path (bytes : string) :
  parseRequest ("GET " +:+ escape_all bytes +:+ " HTTP/1.1" +:+ CRLF)
  = Ok ("GET", bytes, "HTTP/1.1" +:+ CRLF).
Proof.
  assert (Hsp : occurs SP (escape_all bytes) = false) by (by apply occurs_escape_all).
  assert (Hlf : occurs LF (escape_all bytes) = false) by (by apply occurs_escape_all).
  unfold parseRequest.
  replace ("GET " +:+ escape_all bytes +:+ " HTTP/1.1" +:+ CRLF)
    with (("GET " +:+ escape_all bytes +:+ " HTTP/1.1" +:+ String CR "") +:+ String LF "")
    by (unfold CRLF; by assoc_strings).
  rewrite ReadString_append.
  2:{ simpl. by rewrite occurs_append, Hlf. }
  replace (("GET " +:+ escape_all bytes +:+ " HTTP/1.1" +:+ String CR "") +:+ String LF "")
    with ("GET" +:+ String SP (escape_all bytes +:+ String SP ("HTTP/1.1" +:+ CRLF)))
    by (unfold CRLF; by assoc_strings).
  rewrite strings_Split_append by done.
  rewrite strings_Split_append by done.
  rewrite strings_Split_no_sep by done.
  simpl. by rewrite url_PathUnescape_escape_all.
Qed.

(** ** What the handler does to the filesystem, and its status codes *)


(** The status is one of 200, 400, 404 and 500.  It is 400 exactly when
    the handler has made no filesystem call, and that is exactly when the
    request is not a parsed request with the method [GET] and a version
    that starts with [HTTP]. *)
Theorem handleConnection_status (env : Env) (input : string) :
  ∃ r, response_of env input = render r ∧
       (statusCode r = 200 ∨ statusCode r = 400 ∨ statusCode r = 404 ∨ statusCode r = 500) ∧
       (statusCode r = 400 ↔ fs_calls (exec (handleConnection env input) initial) = []) ∧
       (fs_calls (exec (handleConnection env input) initial) = []
        ↔ ¬ ∃ path version,
              parseRequest input = Ok ("GET", path, version) ∧
              strings_HasPrefix version "HTTP" = true).
Proof.
  unfold response_of. rewrite handleConnection_run. cbv zeta. cbn [written fs_calls].
  destruct (parseRequest input) as [[[method path] version]|msg].
  2:{ unfold exec. rewrite sendError_run. eexists. split; [done |].
      split; [by right; left |]. split; [done |].
      split; [|done]. intros _ (p & v & H & _). discriminate. }
  destruct (validateRequest method version) as [reason|] eqn:Hv.
  { unfold exec. rewrite sendError_run. eexists. split; [done |].
    split; [by right; left |]. split; [done |].
    split; [|done]. intros _ (p & v & [= -> -> ->] & Hp).
    assert (validateRequest "GET" v = None) by (by apply validateRequest_None).
    congruence. }
  apply validateRequest_None in Hv as [-> Hprefix].
  assert (Hvalid : ∃ p v, Ok ("GET", path, version) = Ok ("GET", p, v)
                          ∧ strings_HasPrefix v "HTTP" = true) by eauto.
  unfold exec. rewrite serveResource_run. cbv zeta.
  set (fullPath := filepath_Join [dir env; path]).
  destruct (os_Stat env fullPath) as [fi|e].
  2:{ destruct (os_IsNotExist e); rewrite sendError_run; cbn [snd written fs_calls after_calls];
        (eexists; split; [done |]; split; [cbn; auto |];
         split; [split; [discriminate | discriminate] |];
         split; [discriminate | by intros []]). }
  destruct (IsDir fi).
  - destruct (os_ReadDir env fullPath) as [files|e] eqn:Hread.
    + rewrite (generateDirectoryListing_run _ _ _ _ files Hread).
      cbn [snd written fs_calls after_calls].
      eexists; split; [done |]; split; [cbn; auto |];
        split; [split; [discriminate | discriminate] |];
        split; [discriminate | by intros []].
    + rewrite (generateDirectoryListing_unreadable _ _ _ _ e Hread).
      cbn [snd written fs_calls after_calls].
      eexists; split; [done |]; split; [cbn; auto |];
        split; [split; [discriminate | discriminate] |];
        split; [discriminate | by intros []].
  - assert (Hsend : ∃ r, sendFile env fullPath (after_calls [CallStat fullPath])
                         = (tt, {| written := "" +:+ render r; closed := 0;
                                   fs_calls := [CallStat fullPath] ++ [CallOpen fullPath] |})
                         ∧ (statusCode r = 200 ∨ statusCode r = 500)).
    { destruct (os_Open env fullPath) as [file|e] eqn:Hopen.
      - destruct (file_Stat file) as [info|e] eqn:Hstat.
        + rewrite (sendFile_run _ _ _ file info Hopen Hstat). eexists. split; [done | by left].
        + rewrite sendFile_unreadable by (right; eauto). eexists. split; [done | by right].
      - rewrite sendFile_unreadable by (left; eauto). eexists. split; [done | by right]. }
    destruct Hsend as (r & -> & Hr). exists r. cbn [snd written fs_calls].
    split; [done |]. split; [destruct Hr as [-> | ->]; auto |].
    split; [split; [destruct Hr as [-> | ->]; discriminate | discriminate] |].
    split; [discriminate | by intros []].
Qed.

(** On a filesystem where the metadata of every file that opens reports
    the number of its bytes, the [Content-Length] of every response is
    the number of bytes of its body. *)
Theorem content_length_is_body_length (env : Env) (input : string) :
  (∀ path file info,
     os_Open env path = OsOk file -> file_Stat file = OsOk info ->
     Size info = len (file_bytes file)) ->
  ∃ r contentType contentLength,
    response_of env input = render r ∧
    headers r = [("Content-Type", contentType); ("Content-Length", contentLength)] ∧
    atoi contentLength = Some (len (body r)).
Proof.
  intros Hsize. unfold response_of. rewrite handleConnection_run. cbv zeta. cbn [written].
  assert (Herr : ∀ code message s,
            ∃ r ct cl, written (exec (sendError code message) (after_calls s)) = render r
                       ∧ headers r = [("Content-Type", ct); ("Content-Length", cl)]
                       ∧ atoi cl = Some (len (body r))).
  { intros code message s. unfold exec. rewrite sendError_run.
    exists (error_response code message). do 2 eexists.
    split; [done |]. split; [done |]. apply atoi_itoa. }
  destruct (parseRequest input) as [[[method path] version]|msg]; [|apply (Herr _ _ [])].
  destruct (validateRequest method version) as [reason|]; [apply (Herr _ _ []) |].
  unfold exec at 1. rewrite serveResource_run. cbv zeta.
  set (fullPath := filepath_Join [dir env; path]).
  destruct (os_Stat env fullPath) as [fi|e].
  2:{ destruct (os_IsNotExist e); apply Herr. }
  destruct (IsDir fi).
  - destruct (os_ReadDir env fullPath) as [files|e] eqn:Hread.
    + rewrite (generateDirectoryListing_run _ _ _ _ files Hread).
      exists (listing_response (listing_document path files)). do 2 eexists.
      split; [done |]. split; [done |]. apply atoi_itoa.
    + unfold generateDirectoryListing, bind, fs_call. rewrite Hread.
      apply (Herr _ _ [CallStat fullPath; CallReadDir fullPath]).
  - unfold sendFile, bind, fs_call. cbn [after_calls written closed fs_calls].
    destruct (os_Open env fullPath) as [file|e] eqn:Hopen;
      [|apply (Herr _ _ [CallStat fullPath; CallOpen fullPath])].
    destruct (file_Stat file) as [info|e] eqn:Hstat;
      [|apply (Herr _ _ [CallStat fullPath; CallOpen fullPath])].
    exists (file_response (content_type env fullPath) (Size info) (file_bytes file)).
    do 2 eexists. split; [|split; [done |]].
    + pose proof (sendFile_run env fullPath (after_calls [CallStat fullPath]) file info Hopen Hstat) as Hrun.
      unfold sendFile, bind, fs_call in Hrun. rewrite Hopen, Hstat in Hrun.
      cbn [after_calls written closed fs_calls] in Hrun. by rewrite Hrun.
    + cbn [body file_response]. rewrite atoi_itoa. f_equal. by eapply Hsize.
Qed.

Lemma example_host_sizes (path : string) (file : File) (info : FileInfo) :
  os_Open example_host path = OsOk file -> file_Stat file = OsOk info ->
  Size info = len (file_bytes file).
Proof.
  unfold example_host. cbn [os_Open].
  repeat case_decide; intros [= <-]; cbn [regular file_Stat file_bytes];
    by intros [= <-].
Qed.

Lemma content_length_is_body_length_witness :
  ∃ r contentType contentLength,
    response_of example_host ("GET /index.html HTTP/1.1" +:+ CRLF) = render r ∧
    headers r = [("Content-Type", contentType); ("Content-Length", contentLength)] ∧
    atoi contentLength = Some (len (body r)).
Proof.
  apply (content_length_is_body_length example_host ("GET /index.html HTTP/1.1" +:+ CRLF)).
  exact example_host_sizes.
Defined.

(** ** The worker pool: who holds a connection *)

Lemma conns_owned_once_step workers p p' :
  conns_owned_once p -> pool_step workers p p' -> conns_owned_once p'.
Proof.
  unfold conns_owned_once. intros (Huniq & Hacc & Hsend) Hstep.
  destruct Hstep as [i ws n Hi|i ws n Hi|ws n|ws n|c j ws n Hj|c j m ws n Hm Hj];
    cbn [main_pc pool accepted] in *.
  - split; [|split; [|done]].
    + intros a b conn Ha Hb.
      apply lookup_snoc_Some in Ha as [[_ Ha] | [_ ?]]; [|done].
      apply lookup_snoc_Some in Hb as [[_ Hb] | [_ ?]]; [|done]. eauto.
    + intros a conn Ha. apply lookup_snoc_Some in Ha as [[_ Ha] | [_ ?]]; [eauto | done].
  - done.
  - split; [done |]. split; [intros a conn Ha; specialize (Hacc a conn Ha); lia |].
    intros conn [= <-]. split; [lia |]. intros a Ha. specialize (Hacc a n Ha). lia.
  - done.
  - destruct (Hsend c eq_refl) as [Hc Hfree].
    split; [|split; [|done]].
    + intros a b conn Ha Hb.
      apply list_lookup_insert_Some in Ha as [(Hja & Hx & _) | [Hna Ha]];
        apply list_lookup_insert_Some in Hb as [(Hjb & Hy & _) | [Hnb Hb]].
      * congruence.
      * injection Hx as <-. by destruct (Hfree b).
      * injection Hy as <-. by destruct (Hfree a).
      * eauto.
    + intros a conn Ha.
      apply list_lookup_insert_Some in Ha as [(_ & Hx & _) | [Hna Ha]]; [|eauto].
      by injection Hx as <-.
  - split; [|split].
    + intros a b conn Ha Hb.
      apply list_lookup_insert_Some in Ha as [(_ & ? & _) | [Hna Ha]]; [done |].
      apply list_lookup_insert_Some in Hb as [(_ & ? & _) | [Hnb Hb]]; [done |]. eauto.
    + intros a conn Ha.
      apply list_lookup_insert_Some in Ha as [(_ & ? & _) | [Hna Ha]]; [done | eauto].
    + intros conn Hs. destruct (Hsend conn Hs) as [Hc Hfree]. split; [done |].
      intros a Ha.
      apply list_lookup_insert_Some in Ha as [(_ & ? & _) | [Hna Ha]]; [done |].
      by destruct (Hfree a).
Qed.

(** A connection is never with two workers at once, nor with a worker
    and the acceptor: in every state the program can reach, the
    connections being handled are pairwise different and have been
    accepted, and the connection the acceptor is handing off is not being
    handled. *)
Theorem connections_owned_once (workers : Z) (p : Pool) :
  pool_reachable workers p ->
  (∀ i j conn, pool p !! i = Some (Handling conn) ->
               pool p !! j = Some (Handling conn) -> i = j) ∧
  (∀ i conn, pool p !! i = Some (Handling conn) -> (conn < accepted p)%nat) ∧
  (∀ conn, main_pc p = Sending conn ->
           (conn < accepted p)%nat ∧ ∀ i, pool p !! i ≠ Some (Handling conn)).
Proof.
  unfold pool_reachable. intros Hreach.
  change (conns_owned_once p).
  eapply (rtc_ind_r conns_owned_once pool_start); [| | exact Hreach].
  - unfold conns_owned_once, pool_start. cbn [pool main_pc accepted].
    split; [|split]; intros; done.
  - intros q q' _ Hstep IH. by eapply conns_owned_once_step.
Qed.

Lemma connections_owned_once_witness :
  (∀ i j conn, pool pool_busy !! i = Some (Handling conn) ->
               pool pool_busy !! j = Some (Handling conn) -> i = j) ∧
  (∀ i conn, pool pool_busy !! i = Some (Handling conn) -> (conn < accepted pool_busy)%nat) ∧
  (∀ conn, main_pc pool_busy = Sending conn ->
           (conn < accepted pool_busy)%nat ∧ ∀ i, pool pool_busy !! i ≠ Some (Handling conn)).
Proof. apply (connections_owned_once 2 pool_busy). apply pool_busy_reachable. Defined.

Lemma pool_without_workers_step workers p p' :
  workers ≤ 0 -> pool_without_workers p -> pool_step workers p p' ->
  pool_without_workers p'.
Proof.
  unfold pool_without_workers. intros Hk [Hpool Hmain] Hstep.
  destruct Hstep as [i ws n Hi|i ws n Hi|ws n|ws n|c j ws n Hj|c j m ws n Hm Hj];
    cbn [main_pc pool accepted] in *; subst; try done.
  - lia.
  - by destruct Hmain.
Qed.

(** With a worker count of zero or less the loop of [main] starts no
    worker: the pool stays empty, at most one connection is ever
    accepted, and once the acceptor holds it nothing can happen any more,
    so no connection is ever handled. *)
Theorem no_workers_no_service (workers : Z) (p : Pool) :
  workers ≤ 0 -> pool_reachable workers p ->
  pool p = [] ∧ in_flight p = 0%nat ∧ (accepted p ≤ 1)%nat ∧
  (∀ conn, main_pc p = Sending conn -> ∀ p', ¬ pool_step workers p p').
Proof.
  intros Hk Hreach.
  assert (Hinv : pool_without_workers p).
  { unfold pool_reachable in Hreach.
    eapply (rtc_ind_r pool_without_workers pool_start); [| | exact Hreach].
    - by unfold pool_without_workers, pool_start.
    - intros q q' _ Hstep IH. by eapply pool_without_workers_step. }
  destruct Hinv as [Hpool Hmain].
  split; [done |]. split; [unfold in_flight; by rewrite Hpool |].
  split; [destruct (main_pc p); lia |].
  intros conn Hs p' Hstep.
  destruct Hstep as [i ws n Hi|i ws n Hi|ws n|ws n|c j ws n Hj|c j m ws n Hm Hj];
    cbn [main_pc pool] in *; subst; done.
Qed.

Lemma pool_stuck_reachable : pool_reachable 0 pool_stuck.
Proof.
  unfold pool_reachable, pool_start, pool_stuck.
  eapply rtc_l; [by apply (step_spawned 0 0); simpl; lia |].
  eapply rtc_l; [apply step_accept |].
  apply rtc_refl.
Qed.

Lemma no_workers_no_service_witness :
  pool pool_stuck = [] ∧ in_flight pool_stuck = 0%nat ∧ (accepted pool_stuck ≤ 1)%nat ∧
  (∀ conn, main_pc pool_stuck = Sending conn -> ∀ p', ¬ pool_step 0 pool_stuck p').
Proof.
  apply (no_workers_no_service 0 pool_stuck); [lia | apply pool_stuck_reachable].
Defined.

(** ** Following the links of a listing *)

Lemma filepath_Clean_path_of s :
  s ≠ "" ->
  filepath_Clean s
  = path_of (strings_HasPrefix s "/")
      (clean_elems (strings_HasPrefix s "/") [] (strings_Split s "/")).
Proof. intros Hs. unfold filepath_Clean, path_of. by rewrite decide_False. Qed.

Lemma clean_elems_reals rooted out l :
  Forall real_elem l -> clean_elems rooted out l = rev l ++ out.
Proof.
  revert out. induction l as [|e l IH]; intros out Hl; [done |].
  apply Forall_cons in Hl as [(He1 & He2 & He3) Hl].
  cbn [clean_elems]. rewrite !decide_False by done.
  rewrite IH by done. simpl. by rewrite <- app_assoc.
Qed.

Lemma clean_elems_no_dotdot (l : list string) :
  ".." ∉ l ->
  ∃ reals, Forall real_elem reals ∧ ∀ rooted out, clean_elems rooted out l = reals ++ out.
Proof.
  induction l as [|e l IH]; intros Hl.
  - by exists [].
  - apply not_elem_of_cons in Hl as [He Hl]. destruct (IH Hl) as (reals & Hreals & Hc).
    destruct (decide (e = "")) as [->|H1].
    { exists reals. split; [done |]. intros rooted out. cbn [clean_elems].
      by rewrite decide_True. }
    destruct (decide (e = ".")) as [->|H2].
    { exists reals. split; [done |]. intros rooted out. cbn [clean_elems].
      rewrite decide_False by done. by rewrite decide_True. }
    exists (reals ++ [e]). split.
    + apply Forall_app. split; [done |]. by repeat constructor.
    + intros rooted out. cbn [clean_elems]. rewrite !decide_False by done.
      by rewrite Hc, <- app_assoc.
Qed.

Lemma clean_elems_clean_stack rooted out l :
  clean_stack rooted out -> clean_stack rooted (clean_elems rooted out l).
Proof.
  revert out. induction l as [|e l IH]; intros out Hout; [done |].
  cbn [clean_elems]. destruct (decide (e = "")); [by apply IH |].
  destruct (decide (e = ".")); [by apply IH |].
  destruct Hout as (reals & k & -> & Hreals & Hk).
  destruct (decide (e = "..")) as [->|He].
  - destruct reals as [|x reals].
    + destruct k as [|k]; cbn [app repeat].
      * destruct rooted; apply IH.
        -- by exists [], 0%nat.
        -- exists [], 1%nat. by repeat split.
      * rewrite decide_True by done. apply IH.
        exists [], (S (S k)). split; [done |]. split; [done |].
        intros Hr. by specialize (Hk Hr).
    + apply Forall_cons in Hreals as [(_ & _ & Hx) Hreals].
      cbn [app]. rewrite decide_False by done. apply IH. by exists reals, k.
  - apply IH. exists (e :: reals), k. split; [done |]. split; [|done].
    by constructor.
Qed.

Lemma clean_elems_dotdots k j l :
  clean_elems false (repeat ".." j) (repeat ".." k ++ l)
  = clean_elems false (repeat ".." (k + j)) l.
Proof.
  revert j. induction k as [|k IH]; intros j; [done |].
  cbn [repeat app clean_elems]. rewrite !decide_False by done.
  rewrite decide_True by done.
  destruct j as [|j]; cbn [repeat].
  - etrans; [exact (IH 1%nat) |]. do 2 f_equal. lia.
  - rewrite decide_True by done.
    etrans; [exact (IH (S (S j))) |]. do 2 f_equal. lia.
Qed.

Lemma rev_repeat {A} (x : A) k : rev (repeat x k) = repeat x k.
Proof.
  induction k as [|k IH]; [done |]. simpl. rewrite IH.
  clear IH. induction k as [|k IH]; [done |]. simpl. by rewrite IH.
Qed.

(** Cleaning the elements of a cleaned path changes nothing. *)
Lemma clean_elems_rev_stack rooted out :
  clean_stack rooted out -> clean_elems rooted [] (rev out) = out.
Proof.
  intros (reals & k & -> & Hreals & Hk).
  rewrite rev_app_distr, rev_repeat.
  destruct rooted.
  - rewrite (Hk eq_refl). cbn [repeat app]. rewrite clean_elems_reals.
    + by rewrite rev_involutive, !app_nil_r.
    + by apply Forall_rev.
  - change (@nil string) with (repeat ".." 0) at 1.
    rewrite clean_elems_dotdots, Nat.add_0_r.
    rewrite <- (app_nil_r (rev reals)), clean_elems_app. cbn [clean_elems].
    rewrite clean_elems_reals by (by apply Forall_rev).
    by rewrite rev_involutive.
Qed.

Lemma strings_Split_Join l :
  l ≠ [] -> Forall (λ e, occurs "/" e = false) l ->
  strings_Split (strings_Join l "/") "/" = l.
Proof.
  induction l as [|x l IH]; intros Hne Hl; [done |].
  apply Forall_cons in Hl as [Hx Hl].
  destruct l as [|y l].
  - cbn [strings_Join]. by apply strings_Split_no_sep.
  - change (strings_Join (x :: y :: l) "/") with (x +:+ String "/" (strings_Join (y :: l) "/")).
    rewrite strings_Split_append by done. by rewrite IH.
Qed.

Lemma clean_elems_no_slash rooted out l :
  Forall (λ e, occurs "/" e = false) out -> Forall (λ e, occurs "/" e = false) l ->
  Forall (λ e, occurs "/" e = false) (clean_elems rooted out l).
Proof.
  revert out. induction l as [|e l IH]; intros out Hout Hl; [done |].
  apply Forall_cons in Hl as [He Hl]. cbn [clean_elems].
  repeat case_decide; try (by apply IH).
  - destruct out as [|top out]; [destruct rooted; apply IH; by repeat constructor |].
    case_decide; apply IH; try done.
    + by constructor.
    + by apply Forall_cons in Hout as [_ ?].
  - apply IH; [by constructor | done].
Qed.

Lemma HasPrefix_slash_Join x l :
  x ≠ "" -> occurs "/" x = false -> strings_HasPrefix (strings_Join (x :: l) "/") "/" = false.
Proof.
  intros Hx Hs. destruct x as [|c x]; [done |].
  apply occurs_cons_false in Hs as [Hc _].
  assert (H : ∀ t, strings_HasPrefix (String c t) "/" = false).
  { intros t. unfold strings_HasPrefix. cbn [String.prefix].
    destruct (ascii_dec "/" c); [by subst | done]. }
  destruct l; cbn [strings_Join]; apply H.
Qed.

(** The path of a clean stack is not empty, is rooted as the stack is,
    and has the stack as its elements. *)
Lemma path_of_elements rooted out :
  clean_stack rooted out -> Forall (λ e, occurs "/" e = false) out ->
  path_of rooted out ≠ "" ∧
  strings_HasPrefix (path_of rooted out) "/" = rooted ∧
  clean_elems rooted [] (strings_Split (path_of rooted out) "/") = out.
Proof.
  intros Hstack Hslash. pose proof (clean_elems_rev_stack _ _ Hstack) as Hrev.
  assert (Hslash' : Forall (λ e, occurs "/" e = false) (rev out)) by (by apply Forall_rev).
  unfold path_of. destruct rooted.
  - split; [done |]. split; [by destruct (strings_Join (rev out) "/") |].
    change ("/" +:+ ?t) with (String "/" t). cbn [strings_Split].
    rewrite decide_True by done. cbn [clean_elems]. rewrite decide_True by done.
    destruct (rev out) as [|x l] eqn:E.
    + simpl. by simpl in Hrev.
    + rewrite strings_Split_Join by done. done.
  - destruct (decide (rev out = [])) as [E|E].
    + rewrite E in Hrev. by rewrite <- Hrev.
    + destruct (rev out) as [|x l] eqn:E'; [done |].
      assert (Hx : x ≠ "" ∧ occurs "/" x = false).
      { apply Forall_cons in Hslash' as [Hx _]. split; [|done].
        destruct Hstack as (reals & k & -> & Hreals & _).
        assert (Hin : x ∈ reals ++ repeat ".." k).
        { apply list_elem_of_In, in_rev. rewrite E'. by left. }
        apply elem_of_app in Hin as [Hin | Hin].
        - by eapply Forall_forall in Hreals as [? _].
        - apply list_elem_of_In, repeat_spec in Hin. by subst. }
      destruct Hx as [Hx1 Hx2].
      split; [|split].
      * destruct x; [done |]. by destruct l.
      * by apply HasPrefix_slash_Join.
      * by rewrite strings_Split_Join.
Qed.

Lemma HasPrefix_slash_app_eq a s :
  a ≠ "" -> strings_HasPrefix (a +:+ s) "/" = strings_HasPrefix a "/".
Proof.
  intros Ha. destruct a as [|c a]; [done |]. unfold strings_HasPrefix.
  change (String c a +:+ s) with (String c (a +:+ s)). cbn [String.prefix].
  destruct (ascii_dec "/" c); [|done]. by destruct (a +:+ s), a.
Qed.

Lemma filepath_Join_two a b :
  a ≠ "" ->
  filepath_Join [a; b]
  = let rooted := strings_HasPrefix a "/" in
    path_of rooted
      (clean_elems rooted (clean_elems rooted [] (strings_Split a "/")) (strings_Split b "/")).
Proof.
  intros Ha. cbn [filepath_Join strings_Join]. rewrite decide_True by done.
  rewrite filepath_Clean_path_of by (by destruct a).
  rewrite HasPrefix_slash_app_eq by done.
  change (a +:+ "/" +:+ b) with (a +:+ String "/" b).
  by rewrite strings_Split_app, clean_elems_app.
Qed.

Lemma clean_stack_nil rooted : clean_stack rooted [].
Proof. by exists [], 0%nat. Qed.




(** With a [..] element in the request path a link need not lead into
    the listed directory. *)
Example listing_link_astray :
  filepath_Join [dir example_host; "/docs/../../tmp"] = "/srv/tmp" ∧
  filepath_Join [strings_TrimPrefix "/docs/../../tmp" "."; "a.txt"] = "/tmp/a.txt" ∧
  filepath_Join [dir example_host; "/tmp/a.txt"] = "/srv/www/tmp/a.txt".
Proof. by repeat split. Qed.

(** ** Staying inside the served root *)

Lemma starts_with_app (pre more : list string) : starts_with pre (pre ++ more) = true.
Proof.
  induction pre as [|x pre IH]; [done |]. simpl.
  by rewrite bool_decide_eq_true_2, IH.
Qed.

(** Without a [..] element the request path cannot leave an absolute
    served root: the joined path is the root or lies below it. *)
Theorem serveResource_stays_in_root (env : Env) (path : string) :
  strings_HasPrefix (dir env) "/" = true ->
  ".." ∉ strings_Split path "/" ->
  within_root (dir env) (filepath_Join [dir env; path]) = true ∧
  head (fs_calls (exec (serveResource env path) initial))
  = Some (CallStat (filepath_Join [dir env; path])).
Proof.
  intros Hroot Hdots. split.
  2:{ by destruct (serveResource_first_call env path) as [more ->]. }
  assert (Hdir : dir env ≠ "") by (by intros E; rewrite E in Hroot).
  destruct (clean_elems_no_dotdot _ Hdots) as (reals & Hreals & Hclean).
  rewrite filepath_Join_two by done. cbv zeta. rewrite Hroot, Hclean.
  set (D := clean_elems true [] (strings_Split (dir env) "/")).
  assert (Hstack : clean_stack true (reals ++ D)).
  { rewrite <- (Hclean true D). apply clean_elems_clean_stack, clean_elems_clean_stack, clean_stack_nil. }
  assert (Hslash : Forall (λ e, occurs "/" e = false) (reals ++ D)).
  { rewrite <- (Hclean true D). apply clean_elems_no_slash; [|apply strings_Split_parts].
    apply clean_elems_no_slash; [constructor | apply strings_Split_parts]. }
  destruct (path_of_elements _ _ Hstack Hslash) as (_ & _ & Helems).
  unfold within_root, path_elements. rewrite Helems. fold D.
  rewrite rev_app_distr. apply starts_with_app.
Qed.

Lemma serveResource_stays_in_root_witness :
  within_root (dir example_host) (filepath_Join [dir example_host; "/docs/./a.txt"]) = true ∧
  head (fs_calls (exec (serveResource example_host "/docs/./a.txt") initial))
  = Some (CallStat (filepath_Join [dir example_host; "/docs/./a.txt"])).
Proof.
  apply (serveResource_stays_in_root example_host "/docs/./a.txt").
  - reflexivity.
  - vm_compute. intros H. repeat (apply elem_of_cons in H as [H | H]; [discriminate |]).
    by apply elem_of_nil in H.
Defined.

(** ** Resources that cannot be read *)

(** When the entry is there but cannot be read - the directory cannot be
    listed, the file cannot be opened, or the metadata of the open file
    cannot be read - the whole response is the 500 error: nothing of a
    200 response has been written. *)
Theorem unreadable_resource_500 (env : Env) (path : string) (fi : FileInfo) :
  let fullPath := filepath_Join [dir env; path] in
  os_Stat env fullPath = OsOk fi ->
  (IsDir fi = true ∧ ∃ e, os_ReadDir env fullPath = OsErr e)
  ∨ (IsDir fi = false ∧
     ((∃ e, os_Open env fullPath = OsErr e)
      ∨ ∃ file e, os_Open env fullPath = OsOk file ∧ file_Stat file = OsErr e)) ->
  written (exec (serveResource env path) initial)
  = render (error_response 500 "Internal Server Error") ∧
  parse_response (written (exec (serveResource env path) initial))
  = Some (error_response 500 "Internal Server Error").
Proof.
  intros fullPath Hstat Hcase.
  assert (Hw : written (exec (serveResource env path) initial)
               = render (error_response 500 "Internal Server Error")).
  { unfold exec. rewrite serveResource_run. cbv zeta. fold fullPath. rewrite Hstat.
    destruct Hcase as [[-> [e Hread]] | [-> Hopen]].
    - by rewrite (generateDirectoryListing_unreadable _ _ _ _ e Hread).
    - by rewrite sendFile_unreadable. }
  split; [done |]. rewrite Hw. by apply parse_response_render.
Qed.

Lemma unreadable_resource_500_witness :
  written (exec (serveResource example_host "/secret") initial)
  = render (error_response 500 "Internal Server Error") ∧
  parse_response (written (exec (serveResource example_host "/secret") initial))
  = Some (error_response 500 "Internal Server Error").
Proof.
  apply (unreadable_resource_500 example_host "/secret" a_file); [reflexivity |].
  right. split; [reflexivity |]. left. by exists EACCES.
Defined.

(** ** [sendError] on its own *)

(** For every code and every message without a CR, a client reads the
    response of [sendError] back as that code, the message as reason and
    as body, the type [text/plain], and a [Content-Length] that is the
    number of bytes of the message. *)
Theorem sendError_read_back (code : Z) (message : string) :
  occurs CR message = false ->
  ∃ contentLength,
    parse_response (written (exec (sendError code message) initial))
    = Some {| statusCode := code; statusText := message;
              headers := [("Content-Type", "text/plain"); ("Content-Length", contentLength)];
              body := message |} ∧
    atoi contentLength = Some (Z.of_nat (String.length message)).
Proof.
  intros Hcr. exists (itoa (len message)). split; [|apply atoi_itoa].
  unfold exec. rewrite sendError_run. cbn [snd written initial].
  change ("" +:+ render (error_response code message)) with (render (error_response code message)).
  by apply parse_response_render, readable_error_response.
Qed.

Lemma sendError_read_back_witness :
  ∃ contentLength,
    parse_response (written (exec (sendError 404 "Not Found") initial))
    = Some {| statusCode := 404; statusText := "Not Found";
              headers := [("Content-Type", "text/plain"); ("Content-Length", contentLength)];
              body := "Not Found" |} ∧
    atoi contentLength = Some (Z.of_nat (String.length "Not Found")).
Proof. apply (sendError_read_back 404 "Not Found"). reflexivity. Defined.

(** ** A served root that is a file *)

Lemma filepath_Join_root a :
  a ≠ "" -> filepath_Join [a; "/"] = filepath_Clean a.
Proof.
  intros Ha. rewrite filepath_Join_two by done. cbv zeta.
  rewrite filepath_Clean_path_of by done.
  change (strings_Split "/" "/") with [""; ""]. cbn [clean_elems].
  by rewrite !decide_True.
Qed.

(** The check at start-up ends the process exactly when the query of
    the served root says that it does not exist: it passes for a root
    that is there, whatever it is, and for a query that fails in another
    way.  So a root that is a regular file passes it; the request for
    [/] is then answered with that file when it can be opened and its
    metadata read, and with 500 when it cannot be opened. *)
Theorem file_root_is_served (env : Env) :
  (startup_check env = false
   ↔ ∃ e, os_Stat env (dir env) = OsErr e ∧ os_IsNotExist e = true) ∧
  (∀ fi, dir env ≠ "" -> filepath_Clean (dir env) = dir env ->
     os_Stat env (dir env) = OsOk fi -> IsDir fi = false ->
     startup_check env = true ∧
     (∀ size bytes, regular_file env (dir env) size bytes ->
        response_of env ("GET / HTTP/1.1" +:+ CRLF)
        = render (file_response (content_type env (dir env)) size bytes)) ∧
     ((∃ e, os_Open env (dir env) = OsErr e) ->
        response_of env ("GET / HTTP/1.1" +:+ CRLF)
        = render (error_response 500 "Internal Server Error"))).
Proof.
  split.
  - unfold startup_check. destruct (os_Stat env (dir env)) as [fi|e].
    + split; [discriminate | by intros (e & ? & _)].
    + split.
      * intros He. exists e. split; [done |]. by destruct (os_IsNotExist e).
      * intros (e' & Heq & He'). injection Heq as <-. by rewrite He'.
  - intros fi Hdir Hclean Hstat Hfile.
    split; [unfold startup_check; by rewrite Hstat |].
    assert (Hrun : ∀ r,
              written (exec (sendFile env (dir env)) (after_calls [CallStat (dir env)]))
              = render r ->
              response_of env ("GET / HTTP/1.1" +:+ CRLF) = render r).
    { intros r Hr. unfold response_of. rewrite handleConnection_run.
      change (parseRequest ("GET / HTTP/1.1" +:+ CRLF))
        with (@Ok (string * string * string) ("GET", "/", "HTTP/1.1" +:+ CRLF)).
      cbv iota beta zeta.
      change (validateRequest "GET" ("HTTP/1.1" +:+ CRLF)) with (@None string).
      cbv iota. cbn [written]. unfold exec. rewrite serveResource_run. cbv zeta.
      rewrite filepath_Join_root, Hclean, Hstat, Hfile by done. exact Hr. }
    split.
    + intros size bytes (file & info & Hopen & Hfstat & _ & <- & <- & _).
      apply Hrun. unfold exec. by rewrite (sendFile_run _ _ _ file info Hopen Hfstat).
    + intros Hopen. apply Hrun. unfold exec. by rewrite sendFile_unreadable by (by left).
Qed.

(** On the host whose root is the file [/srv/page.html] the check passes
    and [GET /] is answered with the file. *)
Lemma file_root_is_served_witness :
  (startup_check file_host = false
   ↔ ∃ e, os_Stat file_host (dir file_host) = OsErr e ∧ os_IsNotExist e = true) ∧
  startup_check file_host = true ∧
  response_of file_host ("GET / HTTP/1.1" +:+ CRLF)
  = render (file_response (content_type file_host (dir file_host)) 11 "hello world").
Proof.
  destruct (file_root_is_served file_host) as [Hcheck Hroot].
  split; [exact Hcheck |].
  destruct (Hroot a_file) as (Hpass & Hfile & _);
    [discriminate | reflexivity | reflexivity | reflexivity |].
  split; [exact Hpass |].
  apply Hfile. exists (regular "hello world"), a_file. by repeat split.
Defined.

(** ** The content type of a file *)

Lemma list_ascii_of_string_app (a b : string) :
  list_ascii_of_string (a +:+ b) = list_ascii_of_string a ++ list_ascii_of_string b.
Proof. induction a as [|c a IH]; simpl; [done | by rewrite IH]. Qed.

Lemma ext_scan_stops (l more : list ascii) (seen : string) :
  ext_scan (l ++ "/"%char :: more) seen = ext_scan l seen.
Proof.
  revert seen. induction l as [|c l IH]; intros seen; simpl.
  - done.
  - repeat case_decide; done.
Qed.

Lemma ext_scan_no_dot (l : list ascii) (seen : string) :
  "."%char ∉ l -> ext_scan l seen = "".
Proof.
  revert seen. induction l as [|c l IH]; intros seen Hl; [done |].
  apply not_elem_of_cons in Hl as [Hc Hl]. simpl.
  repeat case_decide; try done. by apply IH.
Qed.

(** The type of a file is decided by the last element of its path
    alone: the directories in front of it, dots in their names included,
    do not matter; and when that element has no dot, the extension is
    empty, so the type is [application/octet-stream] unless the MIME
    table has a type for the empty extension. *)
Theorem content_type_of_last_element (env : Env) (directory name : string) :
  content_type env (directory +:+ "/" +:+ name) = content_type env name ∧
  (occurs "." name = false ->
   filepath_Ext (directory +:+ "/" +:+ name) = "" ∧
   (mime_TypeByExtension env "" = "" ->
    content_type env (directory +:+ "/" +:+ name) = "application/octet-stream")).
Proof.
  assert (Hext : filepath_Ext (directory +:+ "/" +:+ name) = filepath_Ext name).
  { unfold filepath_Ext.
    change (directory +:+ "/" +:+ name) with (directory +:+ String "/" name).
    rewrite list_ascii_of_string_app. cbn [list_ascii_of_string].
    rewrite rev_app_distr. cbn [rev]. rewrite <- app_assoc. cbn [app].
    apply ext_scan_stops. }
  split; [unfold content_type; by rewrite Hext |].
  intros Hdot.
  assert (Hnone : filepath_Ext name = "").
  { unfold filepath_Ext. apply ext_scan_no_dot.
    intros Hin. apply list_elem_of_In, in_rev, list_elem_of_In in Hin.
    clear Hext. induction name as [|c name IH]; [by apply elem_of_nil in Hin |].
    apply occurs_cons_false in Hdot as [Hc Hdot]. cbn [list_ascii_of_string] in Hin.
    apply elem_of_cons in Hin as [Heq | Hin]; [by subst | by apply IH]. }
  split; [by rewrite Hext |].
  intros Hmime. unfold content_type. rewrite Hext, Hnone, Hmime. by rewrite decide_True.
Qed.
